(** * LumpGEM: the MILP construction of [pytfa/lumpgem/lumpgem.py]

    A shallow embedding of the class [LumpGEM] and a verification of the
    statements its specification makes about it.

    Python objects live in a heap addressed by references: cobra reactions
    are hashed and compared by identity, so a Python [set] of reactions is a
    finite set of references, and attribute writes on a reaction are heap
    updates seen through every alias.  Numbers that the source holds as
    floats are exact rationals here: the linear constraint is read with its
    mathematical meaning.  A [for] loop over a Python set visits the
    elements in an order the language leaves open; [elements] stands for
    that order, and no statement below depends on which one it is.

    Two behaviours of the libraries under the class show through it and
    are part of the embedding.  [lower_bound] of a cobra reaction is a
    property: assigning it raises [ValueError] when the value exceeds the
    upper bound, and rewrites the bounds of the reaction's two solver
    variables.  The symbolic layer that builds a constraint's expression
    evaluates a product by 0, so that a variable multiplied by 0 is not
    part of the expression.

    The collaborators that the file imports (the model importer, the
    database loader, the thermodynamic model and its methods) are an
    interface, [ThermoEngine]; every statement holds for all its
    implementations. *)

From Stdlib Require Import QArith Lqa.
From stdpp Require Import base option list strings gmap sets fin_maps fin_sets.

#[local] Set Warnings "-clear-no-such-hyp".

Local Open Scope string_scope.
Local Open Scope list_scope.

(** ** Objects and the heap *)

Abbreviation loc := positive.

(** The exceptions a run can end in.  [ExternalError] is whatever an
    external collaborator (model importer, database loader, thermodynamic
    engine) raises. *)
Inductive Exn :=
| AttributeError
| TypeError
| KeyError
| ValueError
| ExternalError (msg : string).

(** Values held in a reaction's [thermo] dictionary. *)
Inductive PyVal :=
| PyBool (b : bool)
| PyFloat (q : Q)
| PyNone.

(** A cobra reaction, with the attributes [lumpgem.py] reads or writes and
    the upper bound that cobra checks a new lower bound against.
    [metabolites] is the dictionary metabolite -> coefficient, in insertion
    order; [thermo] is [None] while the attribute does not exist. *)
Record Reaction := {
  rxn_id : string;
  metabolites : list (loc * Q);
  forward_variable : loc;
  reverse_variable : loc;
  lower_bound : Q;
  upper_bound : Q;
  thermo : option loc
}.

(** A cobra metabolite: an object with an [id] that is not a reaction.
    [met_dict] holds the attributes assigned to it after its creation. *)
Record Metabolite := {
  met_id : string;
  met_dict : gmap string PyVal
}.

(** An optimisation variable, with its bounds ([None]: unbounded). *)
Record VarObj := {
  var_name : string;
  var_type : string;
  var_lb : option Q;
  var_ub : option Q
}.

(** The objects of the heap.  [OOther] is an object with none of the
    attributes the code uses and no attribute of its own to assign, such
    as [None]. *)
Inductive Obj :=
| OReaction (r : Reaction)
| OMetabolite (m : Metabolite)
| OVariable (v : VarObj)
| ODict (d : gmap string PyVal)
| OOther.

(** The four statements of [run_optimisation], as observable events: the
    trace of a run lists each statement it has started. *)
Inductive Event :=
| EvPrepare
| EvThermoGate
| EvConvert
| EvSolve.

#[global] Instance Event_eq_dec : EqDecision Event.
Proof. solve_decision. Defined.

Record World := {
  heap : gmap loc Obj;
  trace : list Event
}.

(** ** The monad of effectful Python code

    A computation reads and writes the world and ends in a value or in an
    exception; what it wrote before raising stays written. *)

Definition M (A : Type) : Type := World → (Exn + A) * World.

#[global] Instance M_ret : MRet M := λ A (a : A) w, (inr a, w).

#[global] Instance M_bind : MBind M := λ A B (k : A → M B) (c : M A) w,
  match c w with
  | (inl e, w') => (inl e, w')
  | (inr a, w') => k a w'
  end.

Definition raise {A} (e : Exn) : M A := λ w, (inl e, w).

Definition tell (ev : Event) : M unit := λ w,
  (inr tt, {| heap := heap w; trace := trace w ++ [ev] |}).

Definition put_obj (l : loc) (o : Obj) : M unit := λ w,
  (inr tt, {| heap := <[l := o]> (heap w); trace := trace w |}).

(** Object creation: a reference that no live object has. *)
Definition alloc (o : Obj) : M loc := λ w,
  let l := fresh (dom (heap w)) in
  (inr l, {| heap := <[l := o]> (heap w); trace := trace w |}).

(** Access to an attribute that reactions alone have ([metabolites],
    [forward_variable], [reverse_variable], [thermo]): on any other object
    Python raises [AttributeError]. *)
Definition get_reaction (l : loc) : M Reaction := λ w,
  match heap w !! l with
  | Some (OReaction r) => (inr r, w)
  | _ => (inl AttributeError, w)
  end.

(** [obj.id]: reactions and metabolites have one. *)
Definition get_id (l : loc) : M string := λ w,
  match heap w !! l with
  | Some (OReaction r) => (inr (rxn_id r), w)
  | Some (OMetabolite m) => (inr (met_id m), w)
  | _ => (inl AttributeError, w)
  end.

(** Hashing, as a set does before it stores an object: a dictionary is
    unhashable. *)
Definition py_hash (l : loc) : M unit := λ w,
  match heap w !! l with
  | Some (ODict _) => (inl TypeError, w)
  | _ => (inr tt, w)
  end.

(** A [for] loop over a list that threads an accumulator. *)
Fixpoint foldM {A B} (f : B → A → M B) (b : B) (xs : list A) : M B :=
  match xs with
  | [] => mret b
  | x :: xs' => b' ← f b x; foldM f b' xs'
  end.

(** A list comprehension with a condition. *)
Fixpoint filterM {A} (p : A → M bool) (xs : list A) : M (list A) :=
  match xs with
  | [] => mret []
  | x :: xs' =>
      keep ← p x;
      rest ← filterM p xs';
      mret (if keep : bool then x :: rest else rest)
  end.

(** A source-level result handed to the monad. *)
Definition lift_result {A} (r : Exn + A) : M A := λ w, (r, w).

(** A call into an external collaborator: it may read and write the heap,
    and it cannot touch the trace. *)
Definition extern {A} (f : gmap loc Obj → (Exn + A) * gmap loc Obj) : M A := λ w,
  let '(r, h) := f (heap w) in (r, {| heap := h; trace := trace w |}).

(** The solver names of lumpgem.py:9-11. *)
Definition CPLEX : string := "optlang-cplex".
Definition GUROBI : string := "optlang-gurobi".
Definition GLPK : string := "optlang-glpk".

(** ** Linear constraints *)

(** Symbolic expressions as the source builds them with [+] and [*]. *)
Inductive Expr :=
| EConst (q : Q)
| EVar (v : loc)
| EAdd (a b : Expr)
| EMul (c : Q) (e : Expr).

(** [c * e]: the symbolic layer evaluates a product by zero to zero. *)
Definition sym_mul (c : Q) (e : Expr) : Expr :=
  if Qeq_bool c 0 then EConst 0 else EMul c e.

(** [a + b]: the symbolic layer drops a null term. *)
Definition sym_add (a b : Expr) : Expr :=
  match a, b with
  | EConst p, _ => if Qeq_bool p 0 then b else EAdd a b
  | _, EConst q => if Qeq_bool q 0 then a else EAdd a b
  | _, _ => EAdd a b
  end.

(** [problem.Constraint(expression, lb=None, ub=None)]. *)
Record Constraint := {
  expression : Expr;
  lb : option Q;
  ub : option Q
}.

(** The value of an expression under an assignment of the variables. *)
Fixpoint eval (ρ : loc → Q) (e : Expr) : Q :=
  match e with
  | EConst q => q
  | EVar v => ρ v
  | EAdd a b => (eval ρ a + eval ρ b)%Q
  | EMul c e' => (c * eval ρ e')%Q
  end.

(** An assignment satisfies a constraint when the expression lies within
    the bounds that are present. *)
Definition satisfies (ρ : loc → Q) (c : Constraint) : Prop :=
  match lb c with Some l => (l <= eval ρ (expression c))%Q | None => True end ∧
  match ub c with Some u => (eval ρ (expression c) <= u)%Q | None => True end.

(** The variables an expression mentions, with multiplicity. *)
Fixpoint expr_vars (e : Expr) : list loc :=
  match e with
  | EConst _ => []
  | EVar v => [v]
  | EAdd a b => expr_vars a ++ expr_vars b
  | EMul _ e' => expr_vars e'
  end.

(** An operand of [+] or [*] must be a variable object: Python raises
    [TypeError] on anything else (a reaction without a model has [None]
    for its flux variables). *)
Definition operand (v : loc) : M Expr := λ w,
  match heap w !! v with
  | Some (OVariable _) => (inr (EVar v), w)
  | _ => (inl TypeError, w)
  end.

(** ** Models *)

(** A cobra model: its reaction collection, in order. *)
Record CobraModel := {
  reactions : list loc
}.

Section LumpGEM_def.

Context {ThermoDB Solution : Type}.

(** Modelled from the spec: [ThermoModel], the class of thermo/tmodel.py
    that lumpgem.py imports and whose code lies outside it, "an
    AugmentedModel" built "given a thermodynamic
    database handle and a base stoichiometric model", with "a human-readable
    model name", "the single scalar objective" and the constraints added
    through the generic interface. *)
Record TModel := {
  thermo_data : ThermoDB;
  base_model : CobraModel;
  model_name : string;
  objective : gmap loc Q;
  added_cons_vars : list Constraint
}.

Definition ThermoModel (td : ThermoDB) (cobra_model : CobraModel) : TModel :=
  {| thermo_data := td; base_model := cobra_model; model_name := "";
     objective := ∅; added_cons_vars := [] |}.

Definition set_name (n : string) (m : TModel) : TModel :=
  {| thermo_data := thermo_data m; base_model := base_model m; model_name := n;
     objective := objective m; added_cons_vars := added_cons_vars m |}.

Definition set_objective (o : gmap loc Q) (m : TModel) : TModel :=
  {| thermo_data := thermo_data m; base_model := base_model m;
     model_name := model_name m; objective := o;
     added_cons_vars := added_cons_vars m |}.

Definition add_cons_vars (c : Constraint) (m : TModel) : TModel :=
  {| thermo_data := thermo_data m; base_model := base_model m;
     model_name := model_name m; objective := objective m;
     added_cons_vars := added_cons_vars m ++ [c] |}.

(** The external collaborators, as an interface: the two loaders of
    io/base.py and the three methods of the thermodynamic model that
    [run_optimisation] calls.  Each may raise. *)
Class ThermoEngine := {
  import_matlab_model : string → Exn + CobraModel;
  load_thermoDB : string → Exn + ThermoDB;
  prepare : TModel → gmap loc Obj → (Exn + TModel) * gmap loc Obj;
  convert : TModel → gmap loc Obj → (Exn + TModel) * gmap loc Obj;
  optimize : TModel → gmap loc Obj → (Exn + (TModel * Solution)) * gmap loc Obj
}.

Context {Eng : ThermoEngine}.

Record LumpGEM := {
  _GEM : CobraModel;
  _rBBB : gset loc;
  _rcore : gset loc;
  _mcore : gset loc;
  _rncore : gset loc;
  _C_uptake : Q;
  _growth_rate : Q;
  _solver : string;
  _cobra_model : CobraModel;
  _tfa_model : TModel;
  _bin_vars : gmap loc loc
}.

Definition with_tfa_model (m : TModel) (self : LumpGEM) : LumpGEM :=
  {| _GEM := _GEM self; _rBBB := _rBBB self; _rcore := _rcore self;
     _mcore := _mcore self; _rncore := _rncore self;
     _C_uptake := _C_uptake self; _growth_rate := _growth_rate self;
     _solver := _solver self; _cobra_model := _cobra_model self;
     _tfa_model := m; _bin_vars := _bin_vars self |}.

(** *** Partitioning (lumpgem.py:39-54) *)

(** [set([rxn for rxn in GEM.reactions if rxn.id in biomass_rxns])] *)
Definition biomass_reactions (GEM : CobraModel) (biomass_rxns : list string)
  : M (gset loc) :=
  l ← filterM (λ rxn, i ← get_id rxn;
                      mret (bool_decide (i ∈ biomass_rxns)))
              (reactions GEM);
  mret (list_to_set l).

(** The body of the inner loop: [self._rcore.add(rxn)], which hashes
    [rxn], then every key of [rxn.metabolites] goes into [self._mcore]. *)
Definition add_core_reaction (acc : gset loc * gset loc) (rxn : loc)
  : M (gset loc * gset loc) :=
  py_hash rxn;;
  let rcore := acc.1 ∪ {[rxn]} in
  r ← get_reaction rxn;
  mret (rcore, foldl (λ mcore met, mcore ∪ {[met.1]}) acc.2 (metabolites r)).

(** [for subsystem in core_subsystems: for rxn in subsystem: ...], from two
    empty sets. *)
Definition core_sets (core_subsystems : list (list loc))
  : M (gset loc * gset loc) :=
  foldM (λ acc subsystem, foldM add_core_reaction acc subsystem)
        (∅, ∅) core_subsystems.

(** [set([rxn for rxn in GEM.reactions
         if not (rxn in self._rcore or rxn in self._rBBB)])] *)
Definition non_core_reactions (GEM : CobraModel) (rcore rBBB : gset loc)
  : gset loc :=
  list_to_set (filter (λ rxn, ¬ (rxn ∈ rcore ∨ rxn ∈ rBBB)) (reactions GEM)).

(** *** [_apply_thermo_constraints] (lumpgem.py:96-114); it reads
    [self._rBBB], set earlier in the constructor. *)
Definition _apply_thermo_constraints (rBBB : gset loc)
    (thermo_data_path : string) (cobra_model : CobraModel) : M TModel :=
  td ← lift_result (load_thermoDB thermo_data_path);
  let tfa_model := ThermoModel td cobra_model in
  let tfa_model := set_name "Lumped Model" tfa_model in
  let tfa_model := set_objective (gset_to_gmap 1%Q rBBB) tfa_model in
  mret tfa_model.

(** Modelled from the spec: [BinaryVariable], the class of
    optim/variables.py that lumpgem.py imports and whose code lies outside
    it, which is to "create one binary variable (domain {0,1})": a new
    variable object carrying the keyword arguments of the call, with the
    bounds 0 and 1. *)
Definition BinaryVariable (name type : string) : M loc :=
  alloc (OVariable {| var_name := name; var_type := type;
                      var_lb := Some 0%Q; var_ub := Some 1%Q |}).

(** *** [_generate_binary_variables] (lumpgem.py:72-77); it reads
    [self._rncore]. *)
Definition _generate_binary_variables (rncore : gset loc) : M (gmap loc loc) :=
  foldM (λ d rxn, i ← get_id rxn;
                  v ← BinaryVariable i "binary";
                  mret (<[rxn := v]> d))
        ∅ (elements rncore).

(** *** [_generate_constraints] (lumpgem.py:79-94) *)

(** The constraint of lines 87-89 over the flux variables [f] and [b] and
    the indicator [y]:
    [Constraint(f + b + C_uptake * y, ub=C_uptake)]. *)
Definition uptake_constraint (f b y : loc) (C : Q) : Constraint :=
  {| expression := sym_add (sym_add (EVar f) (EVar b)) (sym_mul C (EVar y));
     lb := None; ub := Some C |}.

(** The body of the first loop, lines 87-90. *)
Definition carbon_uptake_constraint (self : LumpGEM) (tfa : TModel) (rxn : loc)
  : M TModel :=
  r ← get_reaction rxn;
  f ← operand (forward_variable r);
  b ← operand (reverse_variable r);
  y ← match _bin_vars self !! rxn with
      | Some v => operand v
      | None => raise KeyError
      end;
  let rxn_const :=
    {| expression := sym_add (sym_add f b) (sym_mul (_C_uptake self) y);
       lb := None; ub := Some (_C_uptake self) |} in
  mret (add_cons_vars rxn_const tfa).

(** [bio_rxn.lower_bound = value] goes through the property setter of
    cobra's [Reaction]: the value is checked against the upper bound,
    stored, and the bounds of the two flux variables are rewritten. *)
Definition with_lower_bound (value : Q) (r : Reaction) : Reaction :=
  {| rxn_id := rxn_id r; metabolites := metabolites r;
     forward_variable := forward_variable r;
     reverse_variable := reverse_variable r;
     lower_bound := value; upper_bound := upper_bound r;
     thermo := thermo r |}.

(** [variable.set_bounds(lb, ub)] *)
Definition set_bounds (bounds : option Q * option Q) (v : VarObj) : VarObj :=
  {| var_name := var_name v; var_type := var_type v;
     var_lb := bounds.1; var_ub := bounds.2 |}.

(** The bounds that [update_variable_bounds] gives the forward and the
    reverse variable of a reaction whose bounds are in order. *)
Definition forward_bounds (r : Reaction) : option Q * option Q :=
  if Qlt_le_dec 0 (lower_bound r) then (Some (lower_bound r), Some (upper_bound r))
  else if Qlt_le_dec (upper_bound r) 0 then (Some 0%Q, Some 0%Q)
  else (Some 0%Q, Some (upper_bound r)).

Definition reverse_bounds (r : Reaction) : option Q * option Q :=
  if Qlt_le_dec 0 (lower_bound r) then (Some 0%Q, Some 0%Q)
  else if Qlt_le_dec (upper_bound r) 0
       then (Some (- upper_bound r)%Q, Some (- lower_bound r)%Q)
  else (Some 0%Q, Some (- lower_bound r)%Q).

(** [self.update_variable_bounds()]: a reaction without a model, whose
    flux variables are not variable objects, has nothing to update. *)
Definition update_variable_bounds (r : Reaction) : M unit := λ w,
  match heap w !! forward_variable r, heap w !! reverse_variable r with
  | Some (OVariable vf), Some (OVariable vb) =>
      (put_obj (forward_variable r) (OVariable (set_bounds (forward_bounds r) vf));;
       put_obj (reverse_variable r) (OVariable (set_bounds (reverse_bounds r) vb))) w
  | _, _ => (inr tt, w)
  end.

(** On a metabolite the assignment creates the attribute; an object of
    another kind has no such attribute to assign. *)
Definition set_lower_bound (value : Q) (bio_rxn : loc) : M unit := λ w,
  match heap w !! bio_rxn with
  | Some (OReaction r) =>
      if Qle_bool value (upper_bound r)
      then (put_obj bio_rxn (OReaction (with_lower_bound value r));;
            update_variable_bounds (with_lower_bound value r)) w
      else (inl ValueError, w)
  | Some (OMetabolite m) =>
      put_obj bio_rxn
        (OMetabolite {| met_id := met_id m;
                        met_dict := <["lower_bound" := PyFloat value]> (met_dict m) |}) w
  | _ => (inl AttributeError, w)
  end.

Definition _generate_constraints (self : LumpGEM) : M LumpGEM :=
  tfa ← foldM (carbon_uptake_constraint self) (_tfa_model self)
              (elements (_rncore self));
  foldM (λ _ bio_rxn, set_lower_bound (_growth_rate self) bio_rxn) tt
        (elements (_rBBB self));;
  mret (with_tfa_model tfa self).

(** *** The constructor (lumpgem.py:18-70) *)
Definition __init__ (GEM : CobraModel) (biomass_rxns : list string)
    (core_subsystems : list (list loc)) (carbon_uptake growth_rate : Q)
    (thermo_data_path : string) : M LumpGEM :=
  rBBB ← biomass_reactions GEM biomass_rxns;
  cores ← core_sets core_subsystems;
  let rncore := non_core_reactions GEM cores.1 rBBB in
  cobra_model ← lift_result (import_matlab_model "..");
  tfa_model ← _apply_thermo_constraints rBBB thermo_data_path cobra_model;
  bin_vars ← _generate_binary_variables rncore;
  _generate_constraints
    {| _GEM := GEM; _rBBB := rBBB; _rcore := cores.1; _mcore := cores.2;
       _rncore := rncore; _C_uptake := carbon_uptake;
       _growth_rate := growth_rate; _solver := "optlang-cplex";
       _cobra_model := cobra_model; _tfa_model := tfa_model;
       _bin_vars := bin_vars |}.

(** *** [run_optimisation] (lumpgem.py:116-126), one definition per
    statement *)

(** [self._tfa_model.prepare()] *)
Definition step_prepare (self : LumpGEM) : M LumpGEM :=
  tell EvPrepare;;
  m ← extern (prepare (_tfa_model self));
  mret (with_tfa_model m self).

(** [d[key] = value] on the dictionary object [d]. *)
Definition dict_setitem (d : loc) (key : string) (value : PyVal) : M unit := λ w,
  match heap w !! d with
  | Some (ODict m) => put_obj d (ODict (<[key := value]> m)) w
  | _ => (inl TypeError, w)
  end.

(** [ncrxn.thermo['computed'] = False] *)
Definition clear_computed (ncrxn : loc) : M unit :=
  r ← get_reaction ncrxn;
  match thermo r with
  | Some d => dict_setitem d "computed" (PyBool false)
  | None => raise AttributeError
  end.

(** [for ncrxn in self._rncore: ncrxn.thermo['computed'] = False] *)
Definition step_thermo_gate (self : LumpGEM) : M unit :=
  tell EvThermoGate;;
  foldM (λ _ ncrxn, clear_computed ncrxn) tt (elements (_rncore self)).

(** [self._tfa_model.convert()] *)
Definition step_convert (self : LumpGEM) : M LumpGEM :=
  tell EvConvert;;
  m ← extern (convert (_tfa_model self));
  mret (with_tfa_model m self).

(** [tfa_solution = self._tfa_model.optimize()] *)
Definition step_solve (self : LumpGEM) : M (LumpGEM * Solution) :=
  tell EvSolve;;
  ms ← extern (optimize (_tfa_model self));
  mret (with_tfa_model ms.1 self, ms.2).

Definition run_optimisation (self : LumpGEM) : M (LumpGEM * Solution) :=
  self1 ← step_prepare self;
  step_thermo_gate self1;;
  self2 ← step_convert self1;
  step_solve self2.

End LumpGEM_def.

Arguments TModel : clear implicits.
Arguments LumpGEM : clear implicits.
Arguments ThermoEngine : clear implicits.

(** ** A stand-in engine and a toy network

    The collaborators are replaced by the lightest implementation of the
    interface: loaders that return an empty model and the path itself, and
    engine methods that succeed without doing anything.  The network is the
    three-reaction scenario: [R1] is core, [R2] is non-core, [B1] produces
    biomass; [R9] is a reaction object that belongs to no model. *)
Module StandIn.

#[export] Instance engine : ThermoEngine string unit := {|
  import_matlab_model := λ _, inr {| reactions := [] |};
  load_thermoDB := λ path, inr path;
  prepare := λ m h, (inr m, h);
  convert := λ m h, (inr m, h);
  optimize := λ m h, (inr (m, tt), h)
|}.

(** The stand-in with a model importer that finds nothing to load. *)
Definition engine_without_model : ThermoEngine string unit := {|
  import_matlab_model := λ _, inl (ExternalError "no model file");
  load_thermoDB := λ path, inr path;
  prepare := λ m h, (inr m, h);
  convert := λ m h, (inr m, h);
  optimize := λ m h, (inr (m, tt), h)
|}.

Definition R1 : loc := 1%positive.
Definition R2 : loc := 2%positive.
Definition B1 : loc := 3%positive.
Definition R9 : loc := 9%positive.

Definition flux_var (n : string) : Obj :=
  OVariable {| var_name := n; var_type := "continuous";
               var_lb := Some 0%Q; var_ub := Some 1000%Q |}.

Definition metabolite (n : string) : Obj :=
  OMetabolite {| met_id := n; met_dict := ∅ |}.

Definition annotation : Obj := ODict {[ "computed" := PyBool true ]}.

Definition toy_heap : gmap loc Obj :=
  list_to_map
    [ (R1, OReaction {| rxn_id := "R1"; metabolites := [(21%positive, (-1)%Q); (22%positive, 1%Q)];
                        forward_variable := 11%positive; reverse_variable := 12%positive;
                        lower_bound := 0%Q; upper_bound := 1000%Q; thermo := Some 31%positive |});
      (R2, OReaction {| rxn_id := "R2"; metabolites := [(22%positive, (-1)%Q); (23%positive, 1%Q)];
                        forward_variable := 13%positive; reverse_variable := 14%positive;
                        lower_bound := 0%Q; upper_bound := 1000%Q; thermo := Some 32%positive |});
      (B1, OReaction {| rxn_id := "B1"; metabolites := [(23%positive, (-1)%Q)];
                        forward_variable := 15%positive; reverse_variable := 16%positive;
                        lower_bound := 0%Q; upper_bound := 1000%Q; thermo := Some 33%positive |});
      (R9, OReaction {| rxn_id := "R9"; metabolites := [(24%positive, (-1)%Q)];
                        forward_variable := 17%positive; reverse_variable := 18%positive;
                        lower_bound := 0%Q; upper_bound := 1000%Q; thermo := None |});
      (11%positive, flux_var "R1"); (12%positive, flux_var "R1_reverse");
      (13%positive, flux_var "R2"); (14%positive, flux_var "R2_reverse");
      (15%positive, flux_var "B1"); (16%positive, flux_var "B1_reverse");
      (17%positive, flux_var "R9"); (18%positive, flux_var "R9_reverse");
      (21%positive, metabolite "m1"); (22%positive, metabolite "m2");
      (23%positive, metabolite "m3"); (24%positive, metabolite "m4");
      (25%positive, OOther);
      (31%positive, annotation); (32%positive, annotation);
      (33%positive, annotation) ].

Definition toy_world : World := {| heap := toy_heap; trace := [] |}.

Definition toy_GEM : CobraModel := {| reactions := [R1; R2; B1] |}.

(** The toy heap with the core reaction [R1] holding the annotation
    dictionary of the non-core reaction [R2]. *)
Definition shared_world : World :=
  {| heap :=
       <[R1 := OReaction {| rxn_id := "R1";
                            metabolites := [(21%positive, (-1)%Q); (22%positive, 1%Q)];
                            forward_variable := 11%positive;
                            reverse_variable := 12%positive;
                            lower_bound := 0%Q; upper_bound := 1000%Q; thermo := Some 32%positive |}]>
         toy_heap;
     trace := [] |}.

(** The toy heap with [R9] detached from any model: its flux variables
    are not variable objects. *)
Definition detached_world : World :=
  {| heap :=
       <[R9 := OReaction {| rxn_id := "R9";
                            metabolites := [(24%positive, (-1)%Q)];
                            forward_variable := 25%positive;
                            reverse_variable := 25%positive;
                            lower_bound := 0%Q; upper_bound := 1000%Q; thermo := None |}]>
         toy_heap;
     trace := [] |}.

(** A model whose only reaction is [R9]. *)
Definition bare_GEM : CobraModel := {| reactions := [R9] |}.

Definition toy_uptake : Q := 10%Q.
Definition toy_growth : Q := (1 # 10)%Q.
Definition toy_path : string := "db.thermodb".

(** The instance the constructor builds from the toy network with
    [biomass_rxns = ["B1"]] and [core_subsystems = [[R1]]]; the indicator
    of [R2] is the new object 34. *)
Definition toy_instance : LumpGEM string := {|
  _GEM := toy_GEM;
  _rBBB := {[B1]};
  _rcore := {[R1]};
  _mcore := {[21%positive; 22%positive]};
  _rncore := {[R2]};
  _C_uptake := toy_uptake;
  _growth_rate := toy_growth;
  _solver := "optlang-cplex";
  _cobra_model := {| reactions := [] |};
  _tfa_model :=
    {| thermo_data := toy_path;
       base_model := {| reactions := [] |};
       model_name := "Lumped Model";
       objective := {[B1 := 1%Q]};
       added_cons_vars :=
         [ {| expression :=
                EAdd (EAdd (EVar 13%positive) (EVar 14%positive))
                     (EMul toy_uptake (EVar 34%positive));
              lb := None; ub := Some toy_uptake |} ] |};
  _bin_vars := {[R2 := 34%positive]}
|}.

(** The instance the constructor builds from [bare_GEM] with no biomass
    identifier and no core subsystem: [R9] is its one non-core reaction. *)
Definition bare_instance : LumpGEM string := {|
  _GEM := bare_GEM;
  _rBBB := ∅;
  _rcore := ∅;
  _mcore := ∅;
  _rncore := {[R9]};
  _C_uptake := toy_uptake;
  _growth_rate := toy_growth;
  _solver := "optlang-cplex";
  _cobra_model := {| reactions := [] |};
  _tfa_model :=
    {| thermo_data := toy_path;
       base_model := {| reactions := [] |};
       model_name := "Lumped Model";
       objective := ∅;
       added_cons_vars :=
         [ {| expression :=
                EAdd (EAdd (EVar 17%positive) (EVar 18%positive))
                     (EMul toy_uptake (EVar 34%positive));
              lb := None; ub := Some toy_uptake |} ] |};
  _bin_vars := {[R9 := 34%positive]}
|}.

End StandIn.

(** ** Vocabulary of the statements *)

Definition reaction_of (h : gmap loc Obj) (l : loc) : option Reaction :=
  match h !! l with
  | Some (OReaction r) => Some r
  | _ => None
  end.

Definition is_reaction (h : gmap loc Obj) (l : loc) : bool :=
  match reaction_of h l with Some _ => true | None => false end.

Definition is_variable (h : gmap loc Obj) (l : loc) : bool :=
  match h !! l with Some (OVariable _) => true | _ => false end.

(** A reaction object whose two flux variables are variable objects. *)
Definition has_flux_variables (h : gmap loc Obj) (l : loc) : bool :=
  match reaction_of h l with
  | Some r => is_variable h (forward_variable r) && is_variable h (reverse_variable r)
  | None => false
  end.

(** The inputs of the constructor are well typed: the model's reactions are
    reaction objects with flux variables, and the core subsystems hold
    reaction objects. *)
Definition well_typed (h : gmap loc Obj) (GEM : CobraModel)
    (core_subsystems : list (list loc)) : bool :=
  forallb (has_flux_variables h) (reactions GEM) &&
  forallb (forallb (is_reaction h)) core_subsystems.

(** The reactions of all the groupings together. *)
Definition grouped (core_subsystems : list (list loc)) : gset loc :=
  ⋃ (list_to_set <$> core_subsystems).

(** The metabolites a reaction object takes part in. *)
Definition metabolites_of (h : gmap loc Obj) (l : loc) : list loc :=
  match reaction_of h l with
  | Some r => (metabolites r).*1
  | None => []
  end.

(** What the two nested loops have collected after some groupings. *)
Definition collected (h : gmap loc Obj) (acc0 : gset loc * gset loc)
    (seen : list loc) (acc : gset loc * gset loc) : Prop :=
  acc.1 = acc0.1 ∪ list_to_set seen ∧
  acc.2 = acc0.2 ∪ ⋃ ((λ l, list_to_set (metabolites_of h l)) <$> seen) ∧
  Forall (λ x, is_reaction h x = true) seen.

(** [f + b + C * y <= C], as the specification writes the carbon-uptake
    constraint. *)
Definition spec_uptake_constraint (f b y : loc) (C : Q) : Constraint :=
  {| expression := EAdd (EAdd (EVar f) (EVar b)) (EMul C (EVar y));
     lb := None; ub := Some C |}.

(** The [id] of an object that has one. *)
Definition id_of (h : gmap loc Obj) (l : loc) : option string :=
  match h !! l with
  | Some (OReaction r) => Some (rxn_id r)
  | Some (OMetabolite m) => Some (met_id m)
  | _ => None
  end.


Definition variable_of (h : gmap loc Obj) (x : loc) : option VarObj :=
  match h !! x with
  | Some (OVariable v) => Some v
  | _ => None
  end.

(** What identifies a variable whatever its bounds: name and type. *)
Definition var_kind (v : VarObj) : string * string := (var_name v, var_type v).

Definition var_bounds (v : VarObj) : option Q * option Q := (var_lb v, var_ub v).

(** The variable object that [BinaryVariable(name=rxn.id, type='binary')]
    creates for the reaction [r]. *)
Definition indicator_of (r : Reaction) : Obj :=
  OVariable {| var_name := rxn_id r; var_type := "binary";
               var_lb := Some 0%Q; var_ub := Some 1%Q |}.

(** The dictionary [d] of indicators built over the heap [h] for the
    reactions [keys], in the heap [h1] that holds the new objects: one new
    variable object per key, no object of [h] among them, none shared. *)
Definition indicators (h h1 : gmap loc Obj) (keys : list loc)
    (d : gmap loc loc) : Prop :=
  h ⊆ h1 ∧
  dom d = list_to_set keys ∧
  (∀ l v, d !! l = Some v →
     h !! v = None ∧ ∃ r, reaction_of h l = Some r ∧ h1 !! v = Some (indicator_of r)) ∧
  (∀ l1 l2 v, d !! l1 = Some v → d !! l2 = Some v → l1 = l2) ∧
  (∀ l, l ∈ dom h1 → l ∈ dom h ∨ ∃ k, d !! k = Some l).

(** The carbon-uptake constraint of the reaction [l], for the indicators
    [bin_vars] and the limit [C]. *)
Definition uptake_constraint_of (h : gmap loc Obj) (bin_vars : gmap loc loc)
    (C : Q) (l : loc) (c : Constraint) : Prop :=
  ∃ r y, reaction_of h l = Some r ∧ bin_vars !! l = Some y ∧
         is_variable h (forward_variable r) = true ∧
         is_variable h (reverse_variable r) = true ∧
         is_variable h y = true ∧
         c = uptake_constraint (forward_variable r) (reverse_variable r) y C.

(** The two flux variables of a reaction object. *)
Definition flux_refs (h : gmap loc Obj) (l : loc) : list loc :=
  match reaction_of h l with
  | Some r => [forward_variable r; reverse_variable r]
  | None => []
  end.

(** [x] is a flux variable of one of the reactions [done]. *)
Definition flux_of (h : gmap loc Obj) (done : list loc) (x : loc) : Prop :=
  ∃ l, l ∈ done ∧ x ∈ flux_refs h l.

(** The heap after [l.lower_bound = g] on the reaction [r] at [l], when
    [g] passes the check against the upper bound. *)
Definition bound_heap (g : Q) (l : loc) (r : Reaction) (h : gmap loc Obj)
  : gmap loc Obj :=
  let r' := with_lower_bound g r in
  let h1 := <[l := OReaction r']> h in
  match h1 !! forward_variable r, h1 !! reverse_variable r with
  | Some (OVariable vf), Some (OVariable vb) =>
      <[reverse_variable r := OVariable (set_bounds (reverse_bounds r') vb)]>
        (<[forward_variable r := OVariable (set_bounds (forward_bounds r') vf)]> h1)
  | _, _ => h1
  end.

(** The variable [v] at [x] carries the bounds that the setter wrote for
    one of the reactions [done], as its forward or as its reverse
    variable. *)
Definition written (g : Q) (h : gmap loc Obj) (done : list loc)
    (x : loc) (v : VarObj) : Prop :=
  ∃ l r, l ∈ done ∧ reaction_of h l = Some r ∧
    ((x = forward_variable r ∧
      var_bounds v = forward_bounds (with_lower_bound g r)) ∨
     (x = reverse_variable r ∧
      var_bounds v = reverse_bounds (with_lower_bound g r))).

(** The heap [h1] is [h] after the lower bound of the reactions [done] was
    set to [g]: each of them is the reaction it was with the new lower
    bound; no other reaction changed; variables are the variables they
    were, up to their bounds; an object that is neither one of [done] nor
    a flux variable of one is untouched; and the flux variables of those
    of [done] that have both carry bounds the setter wrote. *)
Definition bounds_set (g : Q) (h h1 : gmap loc Obj) (done : list loc) : Prop :=
  (∀ l, l ∈ done →
     ∃ r, reaction_of h l = Some r ∧ h1 !! l = Some (OReaction (with_lower_bound g r))) ∧
  (∀ l, l ∉ done → reaction_of h1 l = reaction_of h l) ∧
  (∀ x, var_kind <$> variable_of h1 x = var_kind <$> variable_of h x) ∧
  (∀ x, x ∉ done → ¬ flux_of h done x → h1 !! x = h !! x) ∧
  (∀ l x, l ∈ done → has_flux_variables h l = true → x ∈ flux_refs h l →
     ∃ v, variable_of h1 x = Some v ∧ written g h done x v).


(** The growth rate does not exceed the upper bound of any model reaction
    that the biomass identifiers name: the condition under which cobra
    accepts it as their lower bound. *)
Definition growth_admissible (h : gmap loc Obj) (GEM : CobraModel)
    (biomass_rxns : list string) (g : Q) : bool :=
  forallb (λ l, match reaction_of h l with
                | Some r => if bool_decide (rxn_id r ∈ biomass_rxns)
                            then Qle_bool g (upper_bound r) else true
                | None => true
                end)
          (reactions GEM).

(** No variable object is the forward variable of one model reaction and
    the reverse variable of one: cobra keeps the two under different names
    in the solver. *)
Definition flux_apart (h : gmap loc Obj) (GEM : CobraModel) : bool :=
  forallb (λ l1,
    forallb (λ l2,
      match reaction_of h l1, reaction_of h l2 with
      | Some r1, Some r2 =>
          bool_decide (forward_variable r1 ≠ reverse_variable r2)
      | _, _ => true
      end) (reactions GEM)) (reactions GEM).

(** The assignment [ρ] gives the variable at [x] a value within its
    bounds. *)
Definition within (h : gmap loc Obj) (ρ : loc → Q) (x : loc) : Prop :=
  ∃ v, variable_of h x = Some v ∧
       match var_lb v with Some q => (q <= ρ x)%Q | None => True end ∧
       match var_ub v with Some q => (ρ x <= q)%Q | None => True end.

(** The least value of a forward variable, and the greatest value of a
    reverse variable, under a lower bound [g] of their reaction. *)
Definition forward_floor (g : Q) : Q := if Qlt_le_dec 0 g then g else 0%Q.
Definition reverse_ceiling (g : Q) : Q := if Qlt_le_dec 0 g then 0%Q else (- g)%Q.

Section LumpGEM_postcondition.

Context {ThermoDB Solution : Type} {Eng : ThermoEngine ThermoDB Solution}.

(** What a constructor call that returned [self], taking the world from
    [w] to [w'], has established. *)
Record constructed (w : World) (GEM : CobraModel) (biomass_rxns : list string)
    (core_subsystems : list (list loc)) (carbon_uptake growth_rate : Q)
    (thermo_data_path : string) (self : LumpGEM ThermoDB) (w' : World) : Prop := {
  c_GEM : _GEM self = GEM;
  c_C_uptake : _C_uptake self = carbon_uptake;
  c_growth_rate : _growth_rate self = growth_rate;
  c_import : import_matlab_model ".." = inr (_cobra_model self);
  c_load : load_thermoDB thermo_data_path = inr (thermo_data (_tfa_model self));
  c_base : base_model (_tfa_model self) = _cobra_model self;
  c_name : model_name (_tfa_model self) = "Lumped Model";
  c_objective : objective (_tfa_model self) = gset_to_gmap 1%Q (_rBBB self);
  c_rBBB : ∀ x, x ∈ _rBBB self ↔
             x ∈ reactions GEM ∧
             ∃ r, reaction_of (heap w) x = Some r ∧ rxn_id r ∈ biomass_rxns;
  c_rcore : _rcore self = grouped core_subsystems;
  c_mcore : ∀ m, m ∈ _mcore self ↔
              ∃ l, l ∈ _rcore self ∧ m ∈ metabolites_of (heap w) l;
  c_rncore : _rncore self = non_core_reactions GEM (_rcore self) (_rBBB self);
  c_trace : trace w' = trace w;
  c_heap : ∃ h1, indicators (heap w) h1 (elements (_rncore self)) (_bin_vars self) ∧
                 bounds_set growth_rate h1 (heap w') (elements (_rBBB self));
  c_constraints :
    Forall2 (uptake_constraint_of (heap w') (_bin_vars self) carbon_uptake)
            (elements (_rncore self)) (added_cons_vars (_tfa_model self))
}.

End LumpGEM_postcondition.

(** *** The statements under verification, as predicates *)

(** A reaction that the biomass identifiers name. *)
Definition designated_biomass (h : gmap loc Obj) (biomass_rxns : list string)
    (l : loc) : Prop :=
  ∃ r, reaction_of h l = Some r ∧ rxn_id r ∈ biomass_rxns.

(** What a carbon-uptake constraint over [f], [b] and [y] with limit [C]
    means for the assignments of the variables: with the indicator at 1 the
    combined flux is at most 0, hence null when fluxes are non-negative;
    with the indicator at 0 the combined flux is at most [C]. *)
Definition uptake_semantics (f b y : loc) (C : Q) (c : Constraint) : Prop :=
  ∀ ρ : loc → Q,
    (ρ y == 1 → (satisfies ρ c ↔ ρ f + ρ b <= 0))%Q ∧
    (ρ y == 0 → (satisfies ρ c ↔ ρ f + ρ b <= C))%Q ∧
    (ρ y == 1 → 0 <= ρ f → 0 <= ρ b → satisfies ρ c → ρ f == 0 ∧ ρ b == 0)%Q.

(** The dictionary behind [rxn.thermo], and its entry ['computed']. *)
Definition thermo_ref (h : gmap loc Obj) (l : loc) : option loc :=
  r ← reaction_of h l; thermo r.

Definition thermo_dict (h : gmap loc Obj) (l : loc) : option (gmap string PyVal) :=
  d ← thermo_ref h l;
  match h !! d with
  | Some (ODict m) => Some m
  | _ => None
  end.

Definition computed_flag (h : gmap loc Obj) (l : loc) : option PyVal :=
  m ← thermo_dict h l; m !! "computed".

(** The reaction carries a thermodynamic annotation. *)
Definition annotated (h : gmap loc Obj) (l : loc) : bool :=
  match thermo_dict h l with Some _ => true | None => false end.

(** The reaction is a reaction object without the [thermo] attribute. *)
Definition unannotated (h : gmap loc Obj) (l : loc) : bool :=
  match reaction_of h l with
  | Some r => match thermo r with None => true | Some _ => false end
  | None => false
  end.

(** The dictionary [d] is the annotation of one of the reactions [done]. *)
Definition annotation_of (h : gmap loc Obj) (done : list loc) (d : loc) : Prop :=
  ∃ l, l ∈ done ∧ thermo_ref h l = Some d.

(** The heap [h1] is [h] with ['computed'] set to [False] in the annotation
    of every reaction of [done], and nothing else changed. *)
Definition gated (h h1 : gmap loc Obj) (done : list loc) : Prop :=
  (∀ d, annotation_of h done d →
     ∃ m, h !! d = Some (ODict m) ∧
          h1 !! d = Some (ODict (<["computed" := PyBool false]> m))) ∧
  (∀ d, ¬ annotation_of h done d → h1 !! d = h !! d).

(** The reaction [l] holds the annotation dictionary of one of the
    reactions [rs]. *)
Definition shares_annotation (h : gmap loc Obj) (rs : gset loc) (l : loc) : Prop :=
  ∃ d, thermo_ref h l = Some d ∧ annotation_of h (elements rs) d.

(** "Every non-core reaction has its thermodynamic-computation flag
    disabled, and the flag of every reaction not in the non-core set is
    left unchanged", of the heaps before and after the gating step. *)
Definition gate_frame (rncore : gset loc) (h h' : gmap loc Obj) : Prop :=
  (∀ l, l ∈ rncore → computed_flag h' l = Some (PyBool false)) ∧
  (∀ l, l ∉ rncore → computed_flag h' l = computed_flag h l).

(** The transitions of one optimisation call, in order. *)
Definition transitions : list Event :=
  [EvPrepare; EvThermoGate; EvConvert; EvSolve].

(** The transitions up to and including [ev]. *)
Definition up_to (ev : Event) : list Event :=
  match ev with
  | EvPrepare => [EvPrepare]
  | EvThermoGate => [EvPrepare; EvThermoGate]
  | EvConvert => [EvPrepare; EvThermoGate; EvConvert]
  | EvSolve => transitions
  end.

Section LumpGEM_statements.

Context {ThermoDB Solution : Type} {Eng : ThermoEngine ThermoDB Solution}.

(** "The three sets cover the full reaction set exactly once." *)
Definition exact_partition (GEM : CobraModel) (self : LumpGEM ThermoDB) : Prop :=
  _rBBB self ∪ _rcore self ∪ _rncore self = list_to_set (reactions GEM) ∧
  _rBBB self ## _rcore self ∧
  _rBBB self ## _rncore self ∧
  _rcore self ## _rncore self.

(** "Biomass designation takes priority": a model reaction that is named
    as biomass and listed in a core subsystem is in the biomass set only. *)
Definition biomass_precedence (h : gmap loc Obj) (GEM : CobraModel)
    (biomass_rxns : list string) (core_subsystems : list (list loc))
    (self : LumpGEM ThermoDB) : Prop :=
  ∀ l, l ∈ reactions GEM → designated_biomass h biomass_rxns l →
       l ∈ grouped core_subsystems →
       l ∈ _rBBB self ∧ l ∉ _rcore self.

(** "The base model handed to the engine is the model the caller passed." *)
Definition base_is_supplied_model (self : LumpGEM ThermoDB) : Prop :=
  base_model (_tfa_model self) = _GEM self.

(** Partition inputs the specification calls malformed. *)
Definition malformed (h : gmap loc Obj) (GEM : CobraModel)
    (biomass_rxns : list string) (core_subsystems : list (list loc)) : Prop :=
  biomass_rxns = [] ∨ core_subsystems = [] ∨
  ∃ i, i ∈ biomass_rxns ∧
       ∀ l r, l ∈ reactions GEM → reaction_of h l = Some r → rxn_id r ≠ i.

(** The four steps ran one after the other, each on what the previous one
    left, and all returned. *)
Definition completes (self : LumpGEM ThermoDB) (w : World)
    (out : LumpGEM ThermoDB * Solution) (w' : World) : Prop :=
  ∃ self1 w1 w2 self2 w3,
    step_prepare self w = (inr self1, w1) ∧
    step_thermo_gate self1 w1 = (inr tt, w2) ∧
    step_convert self1 w2 = (inr self2, w3) ∧
    step_solve self2 w3 = (inr out, w').

(** The steps before [ev] ran one after the other and returned, and the
    step [ev], run on what they left, raised [e] and left [w']. *)
Definition raises_at (self : LumpGEM ThermoDB) (w : World) (ev : Event)
    (e : Exn) (w' : World) : Prop :=
  match ev with
  | EvPrepare => step_prepare self w = (inl e, w')
  | EvThermoGate =>
      ∃ self1 w1, step_prepare self w = (inr self1, w1) ∧
                  step_thermo_gate self1 w1 = (inl e, w')
  | EvConvert =>
      ∃ self1 w1 w2, step_prepare self w = (inr self1, w1) ∧
                     step_thermo_gate self1 w1 = (inr tt, w2) ∧
                     step_convert self1 w2 = (inl e, w')
  | EvSolve =>
      ∃ self1 w1 w2 self2 w3,
        step_prepare self w = (inr self1, w1) ∧
        step_thermo_gate self1 w1 = (inr tt, w2) ∧
        step_convert self1 w2 = (inr self2, w3) ∧
        step_solve self2 w3 = (inl e, w')
  end.

(** "Solve before Convert, or Convert before ThermoGate, fails fast." *)
Definition out_of_order_fails_fast : Prop :=
  ∀ (self : LumpGEM ThermoDB) (w : World),
    (EvConvert ∉ trace w → ∃ e w', step_solve self w = (inl e, w')) ∧
    (EvThermoGate ∉ trace w → ∃ e w', step_convert self w = (inl e, w')).

End LumpGEM_statements.

(** ** Reasoning about the monad *)

Lemma bind_inr {A B} (c : M A) (k : A → M B) w b w' :
  (c ≫= k) w = (inr b, w') ↔ ∃ a w1, c w = (inr a, w1) ∧ k a w1 = (inr b, w').
Proof.
  unfold mbind, M_bind. destruct (c w) as [[e|a] w1]; split.
  - intros [=].
  - intros (a & w2 & [=] & _).
  - eauto.
  - intros (a' & w2 & [= <- <-] & Hk). exact Hk.
Qed.

Lemma bind_run {A B} (c : M A) (k : A → M B) w a w1 :
  c w = (inr a, w1) → (c ≫= k) w = k a w1.
Proof. unfold mbind, M_bind. intros ->. reflexivity. Qed.

Lemma ret_inr {A} (a b : A) w w' :
  (mret a : M A) w = (inr b, w') ↔ b = a ∧ w' = w.
Proof. unfold mret, M_ret. split; [intros [= -> ->]| intros [-> ->]]; done. Qed.

Lemma get_reaction_inr l w r w' :
  get_reaction l w = (inr r, w') ↔ reaction_of (heap w) l = Some r ∧ w' = w.
Proof.
  unfold get_reaction, reaction_of.
  destruct (heap w !! l) as [[]|]; split; try (intros [=]; subst; done);
    intros [[=] ->]; subst; done.
Qed.

Lemma operand_inr v w e w' :
  operand v w = (inr e, w') ↔ is_variable (heap w) v = true ∧ e = EVar v ∧ w' = w.
Proof.
  unfold operand, is_variable.
  destruct (heap w !! v) as [[]|]; split; try (intros [=]; subst; done);
    intros ([=] & -> & ->); done.
Qed.

Lemma id_of_reaction h l r : reaction_of h l = Some r → id_of h l = Some (rxn_id r).
Proof. unfold reaction_of, id_of. destruct (h !! l) as [[]|]; intros [=]; by subst. Qed.

Lemma get_id_inr l w i w' :
  get_id l w = (inr i, w') ↔ id_of (heap w) l = Some i ∧ w' = w.
Proof.
  unfold get_id, id_of.
  destruct (heap w !! l) as [[]|]; split; try (intros [=]; subst; done);
    intros [[=] ->]; subst; done.
Qed.

Lemma py_hash_inr l w u w' :
  py_hash l w = (inr u, w') ↔
  (∀ d, heap w !! l ≠ Some (ODict d)) ∧ w' = w.
Proof.
  unfold py_hash. destruct u.
  destruct (heap w !! l) as [[]|]; split; try (intros [=]; subst; done);
    try (intros [_ ->]; done).
  intros [H _]. by destruct (H d).
Qed.

Lemma lift_result_inr {A} (r : Exn + A) w a w' :
  lift_result r w = (inr a, w') ↔ r = inr a ∧ w' = w.
Proof. unfold lift_result. split; [intros [= -> ->]|intros [-> ->]]; done. Qed.

Lemma reaction_of_Some h l r :
  reaction_of h l = Some r ↔ h !! l = Some (OReaction r).
Proof.
  unfold reaction_of. destruct (h !! l) as [[]|]; split; intros [=]; subst; done.
Qed.

Lemma is_reaction_true h l : is_reaction h l = true ↔ ∃ r, reaction_of h l = Some r.
Proof.
  unfold is_reaction. destruct (reaction_of h l); split; eauto; try done.
  intros [? [=]].
Qed.

(** Inversion of the successful runs among the hypotheses. *)
Ltac inv_run :=
  repeat match goal with
  | E : mbind _ _ _ = (inr _, _) |- _ => apply bind_inr in E as (? & ? & ? & E)
  | E : get_reaction _ _ = (inr _, _) |- _ => apply get_reaction_inr in E as [? ?]
  | E : get_id _ _ = (inr _, _) |- _ => apply get_id_inr in E as [? ?]
  | E : py_hash _ _ = (inr _, _) |- _ => apply py_hash_inr in E as [? ?]
  | E : operand _ _ = (inr _, _) |- _ => apply operand_inr in E as (? & ? & ?)
  | E : lift_result _ _ = (inr _, _) |- _ => apply lift_result_inr in E as [? ?]
  | E : mret _ _ = (inr _, _) |- _ => apply ret_inr in E as [? ?]
  | E : raise _ _ = (inr _, _) |- _ => discriminate E
  end;
  subst.

(** A loop invariant for [foldM]: it holds before the loop, every
    successful iteration extends it by the element just processed, so it
    holds of the whole list when the loop returns. *)
Lemma foldM_ind_from {A B} (f : B → A → M B) (P : list A → B → World → Prop)
    (all done xs : list A) b w b' w' :
  all = done ++ xs →
  (∀ pre x post b1 w1 b2 w2,
      all = pre ++ x :: post → P pre b1 w1 → f b1 x w1 = (inr b2, w2) →
      P (pre ++ [x]) b2 w2) →
  P done b w →
  foldM f b xs w = (inr b', w') → P all b' w'.
Proof.
  intros Hall Hstep. revert done b w Hall.
  induction xs as [|x xs IH]; intros done b w Hall Hinit Hrun; simpl in Hrun.
  - inv_run. by rewrite app_nil_r.
  - inv_run. eapply (IH (done ++ [x])); [by rewrite <- app_assoc| |eassumption].
    eapply Hstep; eauto.
Qed.

Lemma foldM_ind {A B} (f : B → A → M B) (P : list A → B → World → Prop)
    (xs : list A) b w b' w' :
  (∀ pre x post b1 w1 b2 w2,
      xs = pre ++ x :: post → P pre b1 w1 → f b1 x w1 = (inr b2, w2) →
      P (pre ++ [x]) b2 w2) →
  P [] b w →
  foldM f b xs w = (inr b', w') → P xs b' w'.
Proof. intros Hstep. by apply (foldM_ind_from f P xs [] xs). Qed.

(** A loop returns when every iteration does, from any state the
    invariant allows. *)
Lemma foldM_total {A B} (f : B → A → M B) (Q : B → World → Prop)
    (xs : list A) b w :
  Q b w →
  (∀ x b1 w1, x ∈ xs → Q b1 w1 → ∃ b2 w2, f b1 x w1 = (inr b2, w2) ∧ Q b2 w2) →
  ∃ b' w', foldM f b xs w = (inr b', w') ∧ Q b' w'.
Proof.
  revert b w. induction xs as [|x xs IH]; intros b w HQ Hstep; simpl.
  - by exists b, w.
  - destruct (Hstep x b w) as (b2 & w2 & Hf & HQ2); [set_solver|done|].
    rewrite (bind_run _ _ _ _ _ Hf). apply IH; [done|].
    intros y b1 w1 Hy. apply Hstep. set_solver.
Qed.

Lemma Forall2_impl_elem {A B} (P Q : A → B → Prop) (l : list A) (k : list B) :
  Forall2 P l k → (∀ x y, x ∈ l → P x y → Q x y) → Forall2 Q l k.
Proof.
  induction 1 as [|x y l k HP _ IH]; intros Himp; constructor.
  - apply Himp; [by left|done].
  - apply IH. intros x' y' Hx'. apply Himp. by right.
Qed.

Lemma foldl_union_keys (s : gset loc) (mets : list (loc * Q)) :
  foldl (λ mcore met, mcore ∪ {[met.1]}) s mets = s ∪ list_to_set mets.*1.
Proof.
  revert s. induction mets as [|m mets IH]; intros s; simpl.
  - set_solver.
  - rewrite IH. set_solver.
Qed.

Section LumpGEM_facts.

Context {ThermoDB Solution : Type} {Eng : ThermoEngine ThermoDB Solution}.

(** *** Partitioning *)

Lemma biomass_filter_inr (ids : list string) (xs : list loc) w l w' :
  filterM (λ rxn, i ← get_id rxn;
                  mret (bool_decide (i ∈ ids))) xs w = (inr l, w') →
  w' = w ∧
  ∀ x, x ∈ l ↔ x ∈ xs ∧ ∃ i, id_of (heap w) x = Some i ∧ i ∈ ids.
Proof.
  revert l w'. induction xs as [|x xs IH]; intros l w' Hrun; simpl in Hrun.
  - inv_run. split; [done|]. set_solver.
  - inv_run.
    match goal with E : filterM _ _ _ = _ |- _ =>
      destruct (IH _ _ E) as (-> & Hmem) end.
    split; [done|].
    intros y. case_bool_decide as Hid.
    + rewrite elem_of_cons, Hmem, elem_of_cons. split.
      * intros [->|[? ?]]; eauto.
      * intros [[->|?] Hr]; eauto.
    + rewrite Hmem, elem_of_cons. split; [naive_solver|].
      intros [[->|?] (i & Hi & Hin)]; [|eauto]. congruence.
Qed.

(** Line 39 selects by [id]; among reaction objects the selected ones
    are those whose identifier is listed. *)
Lemma biomass_reactions_inr GEM (ids : list string) w s w' :
  Forall (λ x, is_reaction (heap w) x = true) (reactions GEM) →
  biomass_reactions GEM ids w = (inr s, w') →
  w' = w ∧
  ∀ x, x ∈ s ↔ x ∈ reactions GEM ∧
               ∃ r, reaction_of (heap w) x = Some r ∧ rxn_id r ∈ ids.
Proof.
  unfold biomass_reactions. intros Hall Hrun. inv_run.
  match goal with E : filterM _ _ _ = _ |- _ =>
    apply biomass_filter_inr in E as (-> & Hmem) end.
  split; [done|]. intros y. rewrite elem_of_list_to_set, Hmem.
  split; intros [Hy Hd]; (split; [done|]).
  - rewrite Forall_forall in Hall.
    destruct (proj1 (is_reaction_true _ _) (Hall y Hy)) as [r Hr].
    destruct Hd as (i & Hi & Hin). rewrite (id_of_reaction _ _ _ Hr) in Hi.
    injection Hi as <-. eauto.
  - destruct Hd as (r & Hr & Hin). eauto using id_of_reaction.
Qed.

Lemma add_core_reaction_inr acc rxn w acc' w' :
  add_core_reaction acc rxn w = (inr acc', w') →
  w' = w ∧ is_reaction (heap w) rxn = true ∧
  acc'.1 = acc.1 ∪ {[rxn]} ∧
  acc'.2 = acc.2 ∪ list_to_set (metabolites_of (heap w) rxn).
Proof.
  unfold add_core_reaction. intros Hrun. inv_run. simpl.
  match goal with E : reaction_of _ _ = Some _ |- _ => rename E into Hr end.
  unfold metabolites_of, is_reaction. rewrite Hr.
  by rewrite foldl_union_keys.
Qed.

Lemma core_inner_inr acc subsystem w acc' w' :
  foldM add_core_reaction acc subsystem w = (inr acc', w') →
  w' = w ∧ collected (heap w) acc subsystem acc'.
Proof.
  apply (foldM_ind add_core_reaction
           (λ seen a w1, w1 = w ∧ collected (heap w) acc seen a)).
  - intros pre x post b1 w1 b2 w2 _ [-> (H1 & H2 & H3)] Hstep.
    apply add_core_reaction_inr in Hstep as (-> & Hx & E1 & E2).
    split; [done|]. unfold collected.
    rewrite E1, E2, H1, H2, fmap_app, union_list_app_L, list_to_set_app_L.
    simpl. split_and!; [set_solver|set_solver|].
    apply Forall_app. split; [done|]. by constructor.
  - split; [done|]. unfold collected; simpl. split_and!; [set_solver|set_solver|constructor].
Qed.

Lemma core_sets_inr cs w acc w' :
  core_sets cs w = (inr acc, w') →
  w' = w ∧ collected (heap w) (∅, ∅) (concat cs) acc.
Proof.
  unfold core_sets.
  apply (foldM_ind (λ a sub, foldM add_core_reaction a sub)
           (λ seen a w1, w1 = w ∧ collected (heap w) (∅, ∅) (concat seen) a)).
  - intros pre x post b1 w1 b2 w2 _ [-> (H1 & H2 & H3)] Hstep.
    apply core_inner_inr in Hstep as (-> & E1 & E2 & E3).
    split; [done|]. unfold collected.
    rewrite concat_app; simpl. rewrite app_nil_r.
    rewrite E1, E2, H1, H2, fmap_app, union_list_app_L, list_to_set_app_L.
    split_and!; [set_solver|set_solver|]. by apply Forall_app.
  - split; [done|]. unfold collected; simpl. split_and!; [set_solver|set_solver|constructor].
Qed.

Lemma grouped_concat cs : grouped cs = list_to_set (concat cs).
Proof.
  unfold grouped. induction cs as [|sub cs IH]; [done|].
  rewrite fmap_cons. simpl. by rewrite IH, list_to_set_app_L.
Qed.

Lemma elem_of_grouped cs l : l ∈ grouped cs ↔ ∃ sub, sub ∈ cs ∧ l ∈ sub.
Proof.
  unfold grouped. rewrite elem_of_union_list. split.
  - intros (X & HX & Hl). apply list_elem_of_fmap in HX as (sub & -> & Hsub).
    exists sub. by rewrite elem_of_list_to_set in Hl.
  - intros (sub & Hsub & Hl). exists (list_to_set sub). split.
    + apply list_elem_of_fmap. eauto.
    + by rewrite elem_of_list_to_set.
Qed.

Lemma elem_of_non_core GEM rcore rBBB l :
  l ∈ non_core_reactions GEM rcore rBBB ↔
  l ∈ reactions GEM ∧ (l ∉ rcore) ∧ (l ∉ rBBB).
Proof.
  unfold non_core_reactions.
  rewrite elem_of_list_to_set, list_elem_of_filter. tauto.
Qed.

(** *** Indicators *)

Lemma alloc_inr o w l w' :
  alloc o w = (inr l, w') ↔
  l = fresh (dom (heap w)) ∧
  w' = {| heap := <[l := o]> (heap w); trace := trace w |}.
Proof. unfold alloc. split; [intros [= <- <-]|intros [-> ->]]; done. Qed.

Lemma fresh_heap (h : gmap loc Obj) : h !! fresh (dom h) = None.
Proof. apply not_elem_of_dom, is_fresh. Qed.

Lemma reaction_of_subseteq (h h1 : gmap loc Obj) l r :
  h ⊆ h1 → reaction_of h l = Some r → reaction_of h1 l = Some r.
Proof.
  rewrite !reaction_of_Some. intros Hsub Hl.
  by apply (lookup_weaken h h1).
Qed.

Lemma is_variable_subseteq (h h1 : gmap loc Obj) l :
  h ⊆ h1 → is_variable h l = true → is_variable h1 l = true.
Proof.
  unfold is_variable. intros Hsub.
  destruct (h !! l) as [o|] eqn:Hl; [|done].
  by rewrite (lookup_weaken h h1 l o Hl Hsub).
Qed.

Lemma generate_binary_variables_inr rncore w d w' :
  (∀ x, x ∈ rncore → is_reaction (heap w) x = true) →
  _generate_binary_variables rncore w = (inr d, w') →
  trace w' = trace w ∧ indicators (heap w) (heap w') (elements rncore) d.
Proof.
  intros Hrx. unfold _generate_binary_variables.
  apply (foldM_ind _ (λ keys d1 w1,
           trace w1 = trace w ∧ indicators (heap w) (heap w1) keys d1)).
  - intros pre x post d1 w1 d2 w2 Hsplit [Htr (Hsub & Hdom & Hval & Hinj & Hnew)] Hstep.
    unfold BinaryVariable in Hstep. inv_run.
    match goal with E : alloc _ ?w0 = (inr ?u, _) |- _ =>
      apply alloc_inr in E as [Hv ->]; rename u into v end.
    match goal with E : id_of _ _ = Some ?i |- _ =>
      rename E into Hi; rename i into ix end.
    assert (x ∈ rncore) as Hxin.
    { apply elem_of_elements. rewrite Hsplit. set_solver. }
    destruct (proj1 (is_reaction_true _ _) (Hrx x Hxin)) as [rx Hr0].
    assert (ix = rxn_id rx) as ->.
    { pose proof (id_of_reaction _ _ _ (reaction_of_subseteq _ _ _ _ Hsub Hr0)).
      congruence. }
    clear Hi.
    assert (heap w1 !! v = None) as Hfresh by (rewrite Hv; apply fresh_heap).
    clear Hv.
    assert (heap w !! v = None) as Hfresh0.
    { destruct (heap w !! v) as [o|] eqn:E; [|done].
      by rewrite (lookup_weaken _ _ _ _ E Hsub) in Hfresh. }
    assert (x ∉ pre) as Hxpre.
    { pose proof (NoDup_elements rncore) as Hnd. rewrite Hsplit in Hnd.
      apply NoDup_app in Hnd as (_ & Hnd & _). intros Hin.
      apply (Hnd x Hin). by left. }
    assert (d1 !! x = None) as Hdx.
    { apply not_elem_of_dom. rewrite Hdom. by rewrite elem_of_list_to_set. }
    simpl. split; [done|]. unfold indicators. split_and!.
    + by apply insert_subseteq_r.
    + rewrite dom_insert_L, Hdom, list_to_set_app_L. set_solver.
    + intros l u Hl. destruct (decide (l = x)) as [->|Hne].
      * rewrite lookup_insert_eq in Hl. injection Hl as <-.
        split; [done|]. exists rx. split; [done|]. by rewrite lookup_insert_eq.
      * rewrite lookup_insert_ne in Hl by done.
        destruct (Hval _ _ Hl) as (Hu & r' & Hr' & Hind).
        split; [done|]. exists r'. split; [done|].
        rewrite lookup_insert_ne; [done|]. intros ->. congruence.
    + intros l1 l2 u H1 H2.
      destruct (decide (l1 = x)) as [->|Hne1];
        destruct (decide (l2 = x)) as [->|Hne2]; [done|..].
      * rewrite lookup_insert_eq in H1. injection H1 as <-.
        rewrite lookup_insert_ne in H2 by done.
        destruct (Hval _ _ H2) as (_ & r' & _ & Hind). congruence.
      * rewrite lookup_insert_eq in H2. injection H2 as <-.
        rewrite lookup_insert_ne in H1 by done.
        destruct (Hval _ _ H1) as (_ & r' & _ & Hind). congruence.
      * rewrite lookup_insert_ne in H1, H2 by done. eauto.
    + intros l. rewrite dom_insert_L, elem_of_union, elem_of_singleton.
      intros [->|Hl].
      * right. exists x. by rewrite lookup_insert_eq.
      * destruct (Hnew l Hl) as [?|(k & Hk)]; [by left|right].
        exists k. rewrite lookup_insert_ne; [done|]. intros ->. congruence.
  - split; [done|]. unfold indicators. split_and!; try done.
    + intros l. by left.
Qed.

(** *** Carbon-uptake constraints *)

Lemma carbon_uptake_constraint_inr (self : LumpGEM ThermoDB) tfa rxn w tfa' w' :
  carbon_uptake_constraint self tfa rxn w = (inr tfa', w') →
  w' = w ∧
  ∃ c, uptake_constraint_of (heap w) (_bin_vars self) (_C_uptake self) rxn c ∧
       tfa' = add_cons_vars c tfa.
Proof.
  unfold carbon_uptake_constraint. intros Hrun.
  destruct (_bin_vars self !! rxn) as [y|] eqn:Hy; inv_run.
  split; [done|]. eexists. split; [|reflexivity].
  unfold uptake_constraint_of. eauto 10.
Qed.

Lemma uptake_loop_inr (self : LumpGEM ThermoDB) tfa xs w tfa' w' :
  foldM (carbon_uptake_constraint self) tfa xs w = (inr tfa', w') →
  w' = w ∧
  thermo_data tfa' = thermo_data tfa ∧ base_model tfa' = base_model tfa ∧
  model_name tfa' = model_name tfa ∧ objective tfa' = objective tfa ∧
  ∃ new, added_cons_vars tfa' = added_cons_vars tfa ++ new ∧
         Forall2 (uptake_constraint_of (heap w) (_bin_vars self) (_C_uptake self))
                 xs new.
Proof.
  apply (foldM_ind _ (λ pre t w1,
    w1 = w ∧
    thermo_data t = thermo_data tfa ∧ base_model t = base_model tfa ∧
    model_name t = model_name tfa ∧ objective t = objective tfa ∧
    ∃ new, added_cons_vars t = added_cons_vars tfa ++ new ∧
           Forall2 (uptake_constraint_of (heap w) (_bin_vars self) (_C_uptake self))
                   pre new)).
  - intros pre x post t1 w1 t2 w2 _ (-> & E1 & E2 & E3 & E4 & new & E5 & Hall) Hstep.
    apply carbon_uptake_constraint_inr in Hstep as (-> & c & Hc & ->).
    simpl. split_and!; try done. exists (new ++ [c]). split.
    + by rewrite E5, app_assoc.
    + apply Forall2_app; [done|]. by repeat constructor.
  - split_and!; try done. exists []. split; [by rewrite app_nil_r|constructor].
Qed.

(** *** Growth-rate bounds *)

Lemma variable_of_Some h x v :
  variable_of h x = Some v ↔ h !! x = Some (OVariable v).
Proof.
  unfold variable_of. destruct (h !! x) as [[]|]; split; intros [=]; subst; done.
Qed.

Lemma is_variable_true h x :
  is_variable h x = true ↔ ∃ v, variable_of h x = Some v.
Proof.
  unfold is_variable, variable_of.
  destruct (h !! x) as [[]|]; split; eauto; try done; intros [? [=]].
Qed.

Lemma has_flux_variables_true h x :
  has_flux_variables h x = true ↔
  ∃ r, reaction_of h x = Some r ∧
       is_variable h (forward_variable r) = true ∧
       is_variable h (reverse_variable r) = true.
Proof.
  unfold has_flux_variables. destruct (reaction_of h x) as [r|].
  - rewrite andb_true_iff. split; [eauto|]. by intros (r' & [= <-] & ?).
  - split; [done|]. by intros (r' & [=] & _).
Qed.

Lemma has_flux_variables_reaction h x :
  has_flux_variables h x = true → is_reaction h x = true.
Proof.
  intros (r & Hr & _)%has_flux_variables_true. apply is_reaction_true. eauto.
Qed.

Lemma elem_of_flux_refs h l r x :
  reaction_of h l = Some r →
  x ∈ flux_refs h l ↔ x = forward_variable r ∨ x = reverse_variable r.
Proof.
  intros Hr. unfold flux_refs. rewrite Hr.
  rewrite !elem_of_cons, elem_of_nil. tauto.
Qed.

Lemma update_variable_bounds_run r w :
  update_variable_bounds r w =
  (inr tt,
   {| heap :=
        match heap w !! forward_variable r, heap w !! reverse_variable r with
        | Some (OVariable vf), Some (OVariable vb) =>
            <[reverse_variable r := OVariable (set_bounds (reverse_bounds r) vb)]>
              (<[forward_variable r := OVariable (set_bounds (forward_bounds r) vf)]>
                 (heap w))
        | _, _ => heap w
        end;
      trace := trace w |}).
Proof.
  unfold update_variable_bounds. destruct w as [h t]; simpl.
  destruct (h !! forward_variable r) as [[]|]; try reflexivity.
  destruct (h !! reverse_variable r) as [[]|]; reflexivity.
Qed.

(** The setter on a reaction object: [ValueError] when the value exceeds
    the upper bound, the updated heap otherwise. *)
Lemma set_lower_bound_reaction g l w r :
  reaction_of (heap w) l = Some r →
  set_lower_bound g l w =
  if Qle_bool g (upper_bound r)
  then (inr tt, {| heap := bound_heap g l r (heap w); trace := trace w |})
  else (inl ValueError, w).
Proof.
  intros Hr%reaction_of_Some. unfold set_lower_bound. rewrite Hr.
  destruct (Qle_bool g (upper_bound r)); [|done].
  unfold mbind, M_bind, put_obj. rewrite update_variable_bounds_run. done.
Qed.

(** The two shapes of the heap after the setter ran: the reaction has
    both flux variables and they are rewritten, or it lacks one and the
    reaction alone is rewritten. *)
Lemma bound_heap_cases g x r h :
  h !! x = Some (OReaction r) →
  (∃ vf vb,
     h !! forward_variable r = Some (OVariable vf) ∧
     h !! reverse_variable r = Some (OVariable vb) ∧
     x ≠ forward_variable r ∧ x ≠ reverse_variable r ∧
     bound_heap g x r h =
       <[reverse_variable r :=
           OVariable (set_bounds (reverse_bounds (with_lower_bound g r)) vb)]>
         (<[forward_variable r :=
              OVariable (set_bounds (forward_bounds (with_lower_bound g r)) vf)]>
            (<[x := OReaction (with_lower_bound g r)]> h))) ∨
  (¬ (is_variable h (forward_variable r) = true ∧
      is_variable h (reverse_variable r) = true) ∧
   bound_heap g x r h = <[x := OReaction (with_lower_bound g r)]> h).
Proof.
  intros Hx.
  destruct (variable_of h (forward_variable r)) as [vf|] eqn:Hf;
    [destruct (variable_of h (reverse_variable r)) as [vb|] eqn:Hb|].
  - left. apply variable_of_Some in Hf, Hb. exists vf, vb.
    assert (x ≠ forward_variable r) as Hxf by congruence.
    assert (x ≠ reverse_variable r) as Hxb by congruence.
    split_and!; try done.
    unfold bound_heap. cbv zeta. rewrite !lookup_insert_ne by done.
    by rewrite Hf, Hb.
  - right. split.
    { intros [_ [v Hv]%is_variable_true]. congruence. }
    unfold bound_heap. cbv zeta.
    destruct (<[x:=OReaction (with_lower_bound g r)]> h !! forward_variable r)
      as [[]|]; try reflexivity.
    destruct (<[x:=OReaction (with_lower_bound g r)]> h !! reverse_variable r)
      as [[| |vb'| |]|] eqn:E; try reflexivity.
    destruct (decide (x = reverse_variable r)) as [->|Hne].
    + by rewrite lookup_insert_eq in E.
    + rewrite lookup_insert_ne in E by done.
      apply variable_of_Some in E. congruence.
  - right. split.
    { intros [[v Hv]%is_variable_true _]. congruence. }
    unfold bound_heap. cbv zeta.
    destruct (<[x:=OReaction (with_lower_bound g r)]> h !! forward_variable r)
      as [[| |v| |]|] eqn:E; try reflexivity.
    destruct (decide (x = forward_variable r)) as [->|Hne].
    + by rewrite lookup_insert_eq in E.
    + rewrite lookup_insert_ne in E by done.
      apply variable_of_Some in E. congruence.
Qed.

Lemma bound_heap_self g x r h :
  h !! x = Some (OReaction r) →
  bound_heap g x r h !! x = Some (OReaction (with_lower_bound g r)).
Proof.
  intros Hx.
  destruct (bound_heap_cases g x r h Hx)
    as [(vf & vb & _ & _ & Hxf & Hxb & ->)|[_ ->]].
  - by rewrite !lookup_insert_ne, lookup_insert_eq by done.
  - by rewrite lookup_insert_eq.
Qed.

Lemma bound_heap_reaction g x r h l :
  h !! x = Some (OReaction r) → l ≠ x →
  reaction_of (bound_heap g x r h) l = reaction_of h l.
Proof.
  intros Hx Hl.
  destruct (bound_heap_cases g x r h Hx)
    as [(vf & vb & Hf & Hb & Hxf & Hxb & ->)|[_ ->]]; unfold reaction_of.
  - destruct (decide (l = reverse_variable r)) as [->|Hlb].
    { by rewrite lookup_insert_eq, Hb. }
    rewrite lookup_insert_ne by done.
    destruct (decide (l = forward_variable r)) as [->|Hlf].
    { by rewrite lookup_insert_eq, Hf. }
    by rewrite !lookup_insert_ne by done.
  - by rewrite lookup_insert_ne by done.
Qed.

Lemma bound_heap_kind g x r h y :
  h !! x = Some (OReaction r) →
  var_kind <$> variable_of (bound_heap g x r h) y = var_kind <$> variable_of h y.
Proof.
  intros Hx.
  destruct (bound_heap_cases g x r h Hx)
    as [(vf & vb & Hf & Hb & Hxf & Hxb & ->)|[_ ->]]; unfold variable_of.
  - destruct (decide (y = reverse_variable r)) as [->|Hyb].
    { by rewrite lookup_insert_eq, Hb. }
    rewrite lookup_insert_ne by done.
    destruct (decide (y = forward_variable r)) as [->|Hyf].
    { by rewrite lookup_insert_eq, Hf. }
    rewrite lookup_insert_ne by done.
    destruct (decide (y = x)) as [->|Hyx].
    { by rewrite lookup_insert_eq, Hx. }
    by rewrite lookup_insert_ne by done.
  - destruct (decide (y = x)) as [->|Hyx].
    { by rewrite lookup_insert_eq, Hx. }
    by rewrite lookup_insert_ne by done.
Qed.

Lemma bound_heap_frame g x r h y :
  h !! x = Some (OReaction r) →
  y ≠ x → y ≠ forward_variable r → y ≠ reverse_variable r →
  bound_heap g x r h !! y = h !! y.
Proof.
  intros Hx Hyx Hyf Hyb.
  destruct (bound_heap_cases g x r h Hx)
    as [(vf & vb & _ & _ & _ & _ & ->)|[_ ->]];
    by rewrite !lookup_insert_ne by done.
Qed.

Lemma bound_heap_detached g x r h y :
  h !! x = Some (OReaction r) →
  ¬ (is_variable h (forward_variable r) = true ∧
     is_variable h (reverse_variable r) = true) →
  y ≠ x → bound_heap g x r h !! y = h !! y.
Proof.
  intros Hx Hdet Hyx.
  destruct (bound_heap_cases g x r h Hx)
    as [(vf & vb & Hf & Hb & _ & _ & _)|[_ ->]].
  - destruct Hdet. split; apply is_variable_true; eexists;
      apply variable_of_Some; eassumption.
  - by rewrite lookup_insert_ne by done.
Qed.

(** The bounds that the flux variables carry once the setter ran on a
    reaction that has both; when one object serves as both, the bounds of
    the reverse variable, written last, are the ones it keeps. *)
Lemma bound_heap_written g x r h y :
  h !! x = Some (OReaction r) →
  is_variable h (forward_variable r) = true →
  is_variable h (reverse_variable r) = true →
  y = forward_variable r ∨ y = reverse_variable r →
  ∃ v, variable_of (bound_heap g x r h) y = Some v ∧
       ((y = forward_variable r ∧
         var_bounds v = forward_bounds (with_lower_bound g r)) ∨
        (y = reverse_variable r ∧
         var_bounds v = reverse_bounds (with_lower_bound g r))).
Proof.
  intros Hx Hvf Hvb Hy.
  destruct (bound_heap_cases g x r h Hx)
    as [(vf & vb & Hf & Hb & Hxf & Hxb & ->)|[Hdet _]]; [|by destruct Hdet].
  destruct (decide (y = reverse_variable r)) as [->|Hyb].
  - eexists. split.
    + apply variable_of_Some. by rewrite lookup_insert_eq.
    + right. split; [done|]. unfold var_bounds, set_bounds; simpl.
      by destruct (reverse_bounds _).
  - destruct Hy as [->|?]; [|done]. eexists. split.
    + apply variable_of_Some. by rewrite lookup_insert_ne, lookup_insert_eq by done.
    + left. split; [done|]. unfold var_bounds, set_bounds; simpl.
      by destruct (forward_bounds _).
Qed.

Lemma bounds_set_nil g h : bounds_set g h h [].
Proof.
  unfold bounds_set. split_and!; try done.
  - intros l Hl. by apply elem_of_nil in Hl.
  - intros l x Hl. by apply elem_of_nil in Hl.
Qed.

(** One more iteration of the loop of lines 93-94. *)
Lemma bounds_set_step g h h1 pre x r :
  bounds_set g h h1 pre → x ∉ pre → reaction_of h x = Some r →
  bounds_set g h (bound_heap g x r h1) (pre ++ [x]).
Proof.
  intros (Hdone & Hrest & Hkind & Hframe & Hwr) Hx Hr.
  assert (h1 !! x = Some (OReaction r)) as Hx1.
  { apply reaction_of_Some. by rewrite (Hrest x Hx). }
  assert (∀ y, is_variable h y = true → is_variable h1 y = true) as Hvar.
  { intros y [v Hv]%is_variable_true. apply is_variable_true.
    specialize (Hkind y). rewrite Hv in Hkind.
    destruct (variable_of h1 y); [eauto|done]. }
  assert (∀ y, is_variable h y = true → y ≠ x) as Hvx.
  { intros y [v Hv%variable_of_Some]%is_variable_true ->.
    apply reaction_of_Some in Hr. congruence. }
  unfold bounds_set. split_and!.
  - intros l [Hl| ->%list_elem_of_singleton]%elem_of_app.
    + destruct (Hdone l Hl) as (r' & Hr' & Hl'). exists r'. split; [done|].
      apply reaction_of_Some. rewrite bound_heap_reaction; [|done|by intros ->].
      by apply reaction_of_Some.
    + exists r. split; [done|]. by apply bound_heap_self.
  - intros l Hl. rewrite bound_heap_reaction; [|done|set_solver].
    apply Hrest. set_solver.
  - intros y. by rewrite bound_heap_kind.
  - intros y Hy Hnf.
    assert (y ≠ forward_variable r ∧ y ≠ reverse_variable r) as [Hyf Hyb].
    { split; intros ->; apply Hnf; exists x;
        (split; [set_solver|by apply (elem_of_flux_refs h x r); eauto]). }
    rewrite bound_heap_frame; [|done|set_solver|done|done].
    apply Hframe; [set_solver|].
    intros (l & Hl & Hyl). apply Hnf. exists l. split; [set_solver|done].
  - intros l y Hl Hfl Hy.
    assert (is_variable h y = true) as Hyv.
    { apply has_flux_variables_true in Hfl as (rl & Hrl & Hf & Hb).
      apply (elem_of_flux_refs h l rl) in Hy as [->| ->]; done. }
    pose proof (Hvx y Hyv) as Hyx.
    destruct (decide (is_variable h1 (forward_variable r) = true ∧
                      is_variable h1 (reverse_variable r) = true))
      as [[Hvf Hvb]|Hdet].
    + destruct (decide (y = forward_variable r ∨ y = reverse_variable r))
        as [Hyr|Hyr].
      * destruct (bound_heap_written g x r h1 y Hx1 Hvf Hvb Hyr) as (v & Hv & Hcase).
        exists v. split; [done|]. exists x, r. split_and!; [set_solver|done|done].
      * assert (l ∈ pre) as Hlpre.
        { apply elem_of_app in Hl as [?| ->%list_elem_of_singleton]; [done|].
          destruct Hyr. by apply (elem_of_flux_refs h x r). }
        destruct (Hwr l y Hlpre Hfl Hy) as (v & Hv & l' & r' & Hl' & Hr' & Hcase).
        exists v. split.
        -- unfold variable_of. rewrite bound_heap_frame; [done|done|done|tauto|tauto].
        -- exists l', r'. split_and!; [set_solver|done|done].
    + assert (l ∈ pre) as Hlpre.
      { apply elem_of_app in Hl as [?| ->%list_elem_of_singleton]; [done|].
        destruct Hdet.
        apply has_flux_variables_true in Hfl as (rl & Hrl & Hf & Hb).
        assert (rl = r) as -> by congruence. split; by apply Hvar. }
      destruct (Hwr l y Hlpre Hfl Hy) as (v & Hv & l' & r' & Hl' & Hr' & Hcase).
      exists v. split.
      * unfold variable_of. by rewrite bound_heap_detached.
      * exists l', r'. split_and!; [set_solver|done|done].
Qed.

Lemma bounds_loop_inr g xs w u w' :
  NoDup xs →
  (∀ x, x ∈ xs → is_reaction (heap w) x = true) →
  foldM (λ _ bio_rxn, set_lower_bound g bio_rxn) tt xs w = (inr u, w') →
  trace w' = trace w ∧ bounds_set g (heap w) (heap w') xs.
Proof.
  intros Hnd Hrx.
  apply (foldM_ind _ (λ pre _ w1,
    trace w1 = trace w ∧ bounds_set g (heap w) (heap w1) pre)).
  - intros pre x post [] w1 [] w2 Hsplit [Htr Hb] Hstep.
    assert (x ∉ pre) as Hx.
    { rewrite Hsplit in Hnd. apply NoDup_app in Hnd as (_ & Hnd & _).
      intros Hin. apply (Hnd x Hin). by left. }
    destruct (proj1 (is_reaction_true _ _) (Hrx x ltac:(rewrite Hsplit; set_solver)))
      as [r Hr].
    assert (reaction_of (heap w1) x = Some r) as Hr1.
    { destruct Hb as (_ & Hrest & _). by rewrite (Hrest x Hx). }
    rewrite (set_lower_bound_reaction g x w1 r Hr1) in Hstep.
    destruct (Qle_bool g (upper_bound r)); [|done].
    injection Hstep as <-. simpl. split; [done|]. by apply bounds_set_step.
  - split; [done|]. apply bounds_set_nil.
Qed.

(** The loop of lines 93-94 returns when the growth rate is within the
    upper bound of each of the reactions. *)
Lemma bounds_loop_total g xs w :
  (∀ x, x ∈ xs → ∃ r, reaction_of (heap w) x = Some r ∧
                      Qle_bool g (upper_bound r) = true) →
  ∃ w', foldM (λ _ bio_rxn, set_lower_bound g bio_rxn) tt xs w = (inr tt, w').
Proof.
  intros Hok.
  destruct (foldM_total (λ _ bio_rxn, set_lower_bound g bio_rxn)
              (λ _ w1, ∀ x r, reaction_of (heap w) x = Some r →
                 ∃ r1, reaction_of (heap w1) x = Some r1 ∧
                       upper_bound r1 = upper_bound r)
              xs tt w) as ([] & w' & Hrun & _); [by eauto| |by eauto].
  intros x [] w1 Hx Hkeep.
  destruct (Hok x Hx) as (r & Hr & Hle).
  destruct (Hkeep x r Hr) as (r1 & Hr1 & Hub).
  rewrite (set_lower_bound_reaction g x w1 r1 Hr1), Hub, Hle.
  eexists tt, _. split; [reflexivity|]. simpl.
  intros y ry Hry. apply reaction_of_Some in Hr1 as Hx1.
  destruct (decide (y = x)) as [->|Hne].
  - exists (with_lower_bound g r1). split.
    + apply reaction_of_Some. by apply bound_heap_self.
    + simpl. congruence.
  - rewrite bound_heap_reaction by done. by apply Hkeep.
Qed.

Lemma bounds_set_reaction g h h1 done l r :
  bounds_set g h h1 done → l ∉ done →
  reaction_of h l = Some r → reaction_of h1 l = Some r.
Proof. intros (_ & Hrest & _) Hl. by rewrite (Hrest l Hl). Qed.

Lemma bounds_set_variable g h h1 done v :
  bounds_set g h h1 done → is_variable h v = true → is_variable h1 v = true.
Proof.
  intros (_ & _ & Hkind & _) [x Hx]%is_variable_true. apply is_variable_true.
  specialize (Hkind v). rewrite Hx in Hkind.
  destruct (variable_of h1 v); [eauto|done].
Qed.

Lemma uptake_constraint_of_bounds g h h1 done bv C l c :
  bounds_set g h h1 done → l ∉ done →
  uptake_constraint_of h bv C l c → uptake_constraint_of h1 bv C l c.
Proof.
  intros Hb Hl (r & y & Hr & Hy & Hf & Hrv & Hyv & ->).
  exists r, y. split_and!; try done;
    eauto using bounds_set_reaction, bounds_set_variable.
Qed.

(** *** The constructor *)

Lemma apply_thermo_constraints_inr rBBB path cm w (tfa : TModel ThermoDB) w' :
  _apply_thermo_constraints rBBB path cm w = (inr tfa, w') →
  w' = w ∧ load_thermoDB path = inr (thermo_data tfa) ∧
  tfa = set_objective (gset_to_gmap 1%Q rBBB)
          (set_name "Lumped Model" (ThermoModel (thermo_data tfa) cm)).
Proof. unfold _apply_thermo_constraints. intros Hrun. inv_run. done. Qed.

Lemma generate_constraints_inr (self : LumpGEM ThermoDB) w self' w' :
  (∀ x, x ∈ _rBBB self → is_reaction (heap w) x = true) →
  _generate_constraints self w = (inr self', w') →
  trace w' = trace w ∧
  bounds_set (_growth_rate self) (heap w) (heap w') (elements (_rBBB self)) ∧
  ∃ tfa, self' = with_tfa_model tfa self ∧
    thermo_data tfa = thermo_data (_tfa_model self) ∧
    base_model tfa = base_model (_tfa_model self) ∧
    model_name tfa = model_name (_tfa_model self) ∧
    objective tfa = objective (_tfa_model self) ∧
    ∃ new, added_cons_vars tfa = added_cons_vars (_tfa_model self) ++ new ∧
      Forall2 (uptake_constraint_of (heap w) (_bin_vars self) (_C_uptake self))
              (elements (_rncore self)) new.
Proof.
  unfold _generate_constraints. intros Hbio Hrun. inv_run.
  match goal with E : foldM (carbon_uptake_constraint _) _ _ _ = _ |- _ =>
    apply uptake_loop_inr in E as (-> & ? & ? & ? & ? & new & ? & ?) end.
  match goal with E : foldM _ tt _ _ = _ |- _ =>
    apply bounds_loop_inr in E as [? ?];
      [|apply NoDup_elements|by intros y ?%elem_of_elements; apply Hbio] end.
  split_and!; try done. eauto 10.
Qed.

Lemma metabolites_collected (h : gmap loc Obj) (seen : list loc) (m : loc) :
  m ∈ ⋃ ((λ l, list_to_set (metabolites_of h l) : gset loc) <$> seen) ↔
  ∃ l, l ∈ (list_to_set seen : gset loc) ∧ m ∈ metabolites_of h l.
Proof.
  rewrite elem_of_union_list. split.
  - intros (X & HX & Hm). apply list_elem_of_fmap in HX as (l & -> & Hl).
    exists l. by rewrite !elem_of_list_to_set in *.
  - intros (l & Hl & Hm). exists (list_to_set (metabolites_of h l)). split.
    + apply list_elem_of_fmap. exists l. by rewrite elem_of_list_to_set in Hl.
    + by rewrite elem_of_list_to_set.
Qed.

(** What a constructor call that returned has established, for a model
    whose reactions are reaction objects. *)
Lemma init_inr GEM ids cs C g path w self w' :
  Forall (λ x, is_reaction (heap w) x = true) (reactions GEM) →
  __init__ GEM ids cs C g path w = (inr self, w') →
  constructed w GEM ids cs C g path self w'.
Proof.
  unfold __init__. intros Hrxns Hrun. inv_run.
  match goal with E : biomass_reactions _ _ _ = (inr ?s, _) |- _ =>
    apply biomass_reactions_inr in E as (-> & HrBBB); [|done];
    rename s into rBBB end.
  match goal with E : core_sets _ _ = (inr ?acc, _) |- _ =>
    apply core_sets_inr in E as (-> & Hc1 & Hc2 & Hc3); rename acc into cores end.
  match goal with E : _apply_thermo_constraints _ _ _ _ = _ |- _ =>
    apply apply_thermo_constraints_inr in E as (-> & Hload & Htfa) end.
  match goal with E : _generate_binary_variables _ _ = _ |- _ =>
    apply generate_binary_variables_inr in E as (Htr1 & Hind) end.
  2:{ intros y [Hy _]%elem_of_non_core. rewrite Forall_forall in Hrxns. eauto. }
  apply generate_constraints_inr in Hrun
    as (Htr2 & Hbounds & tfa & -> & E1 & E2 & E3 & E4 & new & E5 & Hall).
  2:{ simpl. intros y [Hy (r & Hr & _)]%HrBBB. apply is_reaction_true.
      destruct Hind as (Hsub & _). eauto using reaction_of_subseteq. }
  simpl in *.
  assert (cores.1 = grouped cs) as Hrcore.
  { rewrite Hc1, grouped_concat. simpl. set_solver. }
  rewrite Htfa in E1, E2, E3, E4, E5. simpl in *.
  split; simpl; try done.
  - congruence.
  - intros m. rewrite Hc2. simpl. rewrite union_empty_l_L, metabolites_collected.
    by rewrite Hrcore, grouped_concat.
  - congruence.
  - eauto.
  - rewrite E5. simpl.
    eapply Forall2_impl_elem; [exact Hall|].
    intros l c Hl. apply uptake_constraint_of_bounds with (g := g) (done := elements rBBB);
      [done|].
    rewrite elem_of_elements in *. apply elem_of_non_core in Hl. tauto.
Qed.

(** *** The constructor returns on well-typed inputs *)

Lemma get_reaction_run l w r :
  reaction_of (heap w) l = Some r → get_reaction l w = (inr r, w).
Proof. intros Hr. by apply get_reaction_inr. Qed.

Lemma operand_run v w :
  is_variable (heap w) v = true → operand v w = (inr (EVar v), w).
Proof. intros Hv. by apply operand_inr. Qed.

Lemma get_id_run l w i :
  id_of (heap w) l = Some i → get_id l w = (inr i, w).
Proof. intros Hi. by apply get_id_inr. Qed.

Lemma py_hash_reaction l w r :
  reaction_of (heap w) l = Some r → py_hash l w = (inr tt, w).
Proof. intros Hr%reaction_of_Some. unfold py_hash. by rewrite Hr. Qed.

Lemma biomass_reactions_total GEM (ids : list string) w :
  Forall (λ x, is_reaction (heap w) x = true) (reactions GEM) →
  ∃ s, biomass_reactions GEM ids w = (inr s, w).
Proof.
  unfold biomass_reactions. generalize (reactions GEM). intros xs Hall.
  cut (∃ l, filterM (λ rxn, i ← get_id rxn;
                      mret (bool_decide (i ∈ ids))) xs w = (inr l, w)).
  { intros [l Hl]. rewrite (bind_run _ _ _ _ _ Hl). eauto. }
  induction Hall as [|x xs Hx _ [l IH]]; simpl; [by eexists|].
  apply is_reaction_true in Hx as [r Hr].
  rewrite (bind_run _ _ w (bool_decide (rxn_id r ∈ ids)) w).
  - rewrite (bind_run _ _ _ _ _ IH). eauto.
  - by rewrite (bind_run _ _ _ _ _ (get_id_run _ _ _ (id_of_reaction _ _ _ Hr))).
Qed.

Lemma add_core_reaction_total acc rxn w :
  is_reaction (heap w) rxn = true →
  ∃ acc', add_core_reaction acc rxn w = (inr acc', w).
Proof.
  intros [r Hr]%is_reaction_true. unfold add_core_reaction.
  rewrite (bind_run _ _ _ _ _ (py_hash_reaction _ _ _ Hr)).
  rewrite (bind_run _ _ _ _ _ (get_reaction_run _ _ _ Hr)). eauto.
Qed.

Lemma core_sets_total cs w :
  forallb (forallb (is_reaction (heap w))) cs = true →
  ∃ acc, core_sets cs w = (inr acc, w).
Proof.
  intros Hcs. unfold core_sets.
  destruct (foldM_total (λ a sub, foldM add_core_reaction a sub)
              (λ _ w1, w1 = w) cs (∅, ∅) w) as (acc & w' & Hrun & ->); [done| |eauto].
  intros sub a w1 Hsub ->.
  assert (forallb (is_reaction (heap w)) sub = true) as Hall.
  { rewrite forallb_forall in Hcs. apply Hcs. by apply list_elem_of_In. }
  destruct (foldM_total add_core_reaction (λ _ w1, w1 = w) sub a w)
    as (a' & w' & Hrun & ->); [done| |eauto].
  intros x a1 w1 Hx ->.
  destruct (add_core_reaction_total a1 x w) as [a2 Ha2]; [|eauto].
  rewrite forallb_forall in Hall. apply Hall. by apply list_elem_of_In.
Qed.

Lemma generate_binary_variables_total rncore w :
  (∀ x, x ∈ rncore → is_reaction (heap w) x = true) →
  ∃ d w', _generate_binary_variables rncore w = (inr d, w').
Proof.
  intros Hall. unfold _generate_binary_variables.
  destruct (foldM_total
              (λ (d : gmap loc loc) rxn, i ← get_id rxn;
                        v ← BinaryVariable i "binary";
                        mret (<[rxn := v]> d))
              (λ _ w1, heap w ⊆ heap w1) (elements rncore) ∅ w)
    as (d & w' & Hrun & _); [done| |eauto].
  intros x d1 w1 Hx Hsub.
  destruct (proj1 (is_reaction_true _ _) (Hall x (proj1 (elem_of_elements _ _) Hx)))
    as [r Hr].
  rewrite (bind_run _ _ _ _ _
             (get_id_run _ _ _
                (id_of_reaction _ _ _ (reaction_of_subseteq _ _ _ _ Hsub Hr)))).
  unfold BinaryVariable.
  rewrite (bind_run _ _ _ _ _ (proj2 (alloc_inr _ _ _ _) (conj eq_refl eq_refl))).
  eexists _, _. split; [reflexivity|]. simpl.
  apply insert_subseteq_r; [|done].
  destruct (heap w !! fresh (dom (heap w1))) as [o|] eqn:E; [|done].
  pose proof (fresh_heap (heap w1)) as Hf.
  by rewrite (lookup_weaken _ _ _ _ E Hsub) in Hf.
Qed.

Lemma carbon_uptake_constraint_run (self : LumpGEM ThermoDB) tfa rxn w c :
  uptake_constraint_of (heap w) (_bin_vars self) (_C_uptake self) rxn c →
  carbon_uptake_constraint self tfa rxn w = (inr (add_cons_vars c tfa), w).
Proof.
  intros (r & y & Hr & Hy & Hf & Hb & Hyv & ->). unfold carbon_uptake_constraint.
  rewrite (bind_run _ _ _ _ _ (get_reaction_run _ _ _ Hr)).
  rewrite (bind_run _ _ _ _ _ (operand_run _ _ Hf)).
  rewrite (bind_run _ _ _ _ _ (operand_run _ _ Hb)).
  rewrite Hy.
  by rewrite (bind_run _ _ _ _ _ (operand_run _ _ Hyv)).
Qed.

Lemma uptake_loop_total (self : LumpGEM ThermoDB) w :
  (∀ x, x ∈ _rncore self →
     ∃ c, uptake_constraint_of (heap w) (_bin_vars self) (_C_uptake self) x c) →
  ∃ tfa, foldM (carbon_uptake_constraint self) (_tfa_model self)
               (elements (_rncore self)) w = (inr tfa, w).
Proof.
  intros Hnc.
  destruct (foldM_total (carbon_uptake_constraint self) (λ _ w1, w1 = w)
              (elements (_rncore self)) (_tfa_model self) w)
    as (tfa & w1 & Hrun1 & ->); [done| |by eauto].
  intros x t w1 Hx ->. destruct (Hnc x) as [c Hc]; [by apply elem_of_elements|].
  eexists _, _. split; [by apply carbon_uptake_constraint_run|done].
Qed.

Lemma generate_constraints_total (self : LumpGEM ThermoDB) w :
  (∀ x, x ∈ _rncore self →
     ∃ c, uptake_constraint_of (heap w) (_bin_vars self) (_C_uptake self) x c) →
  (∀ x, x ∈ _rBBB self →
     ∃ r, reaction_of (heap w) x = Some r ∧
          Qle_bool (_growth_rate self) (upper_bound r) = true) →
  ∃ self' w', _generate_constraints self w = (inr self', w').
Proof.
  intros Hnc Hbio. unfold _generate_constraints.
  destruct (uptake_loop_total self w Hnc) as [tfa Hrun1].
  rewrite (bind_run _ _ _ _ _ Hrun1).
  destruct (bounds_loop_total (_growth_rate self) (elements (_rBBB self)) w)
    as [w2 Hrun2].
  { intros x Hx%elem_of_elements. by apply Hbio. }
  rewrite (bind_run _ _ _ _ _ Hrun2). eauto.
Qed.

Lemma well_typed_reactions h GEM cs x :
  well_typed h GEM cs = true → x ∈ reactions GEM →
  has_flux_variables h x = true.
Proof.
  unfold well_typed. intros [H1 _]%andb_true_iff Hx.
  rewrite forallb_forall in H1. apply H1. by apply list_elem_of_In.
Qed.

Lemma apply_thermo_constraints_run rBBB path cm w td :
  load_thermoDB path = inr td →
  _apply_thermo_constraints rBBB path cm w =
  (inr (set_objective (gset_to_gmap 1%Q rBBB)
          (set_name "Lumped Model" (ThermoModel td cm))), w).
Proof.
  intros Hload. unfold _apply_thermo_constraints. rewrite Hload.
  by rewrite (bind_run _ _ w td w).
Qed.

Lemma well_typed_model h GEM cs :
  well_typed h GEM cs = true →
  Forall (λ x, is_reaction h x = true) (reactions GEM).
Proof.
  intros Hwt. apply Forall_forall. intros x Hx.
  eauto using has_flux_variables_reaction, well_typed_reactions.
Qed.

Lemma growth_admissible_reaction h GEM (ids : list string) g x r :
  growth_admissible h GEM ids g = true →
  x ∈ reactions GEM → reaction_of h x = Some r → rxn_id r ∈ ids →
  Qle_bool g (upper_bound r) = true.
Proof.
  unfold growth_admissible. rewrite forallb_forall. intros Hall Hx Hr Hid.
  specialize (Hall x (proj1 (list_elem_of_In _ _) Hx)). rewrite Hr in Hall.
  by rewrite bool_decide_eq_true_2 in Hall.
Qed.

(** On well-typed inputs, with loaders that return, the constructor
    gets as far as [_generate_constraints], in a world that has gained the
    indicators and where the first loop of that method returns. *)
Lemma init_reaches_constraints GEM (ids : list string) cs C g path w cm td :
  well_typed (heap w) GEM cs = true →
  import_matlab_model ".." = inr cm →
  load_thermoDB path = inr td →
  ∃ (self0 : LumpGEM ThermoDB) w1,
    __init__ GEM ids cs C g path w = _generate_constraints self0 w1 ∧
    _growth_rate self0 = g ∧
    heap w ⊆ heap w1 ∧ trace w1 = trace w ∧
    (∀ x, x ∈ _rBBB self0 ↔
          x ∈ reactions GEM ∧
          ∃ r, reaction_of (heap w) x = Some r ∧ rxn_id r ∈ ids) ∧
    (∀ x, x ∈ _rncore self0 →
       ∃ c, uptake_constraint_of (heap w1) (_bin_vars self0) (_C_uptake self0) x c).
Proof.
  intros Hwt Himp Hload. unfold __init__.
  destruct (biomass_reactions_total GEM ids w) as [rBBB HrBBB].
  { by eapply well_typed_model. }
  rewrite (bind_run _ _ _ _ _ HrBBB).
  apply biomass_reactions_inr in HrBBB as (_ & Hbio);
    [|by eapply well_typed_model].
  destruct (core_sets_total cs w) as [cores Hcores].
  { unfold well_typed in Hwt. by apply andb_true_iff in Hwt as [_ ?]. }
  rewrite (bind_run _ _ _ _ _ Hcores). cbv zeta.
  rewrite Himp. rewrite (bind_run _ _ w cm w) by done.
  rewrite (bind_run _ _ _ _ _ (apply_thermo_constraints_run rBBB path cm w td Hload)).
  set (rncore := non_core_reactions GEM cores.1 rBBB).
  destruct (generate_binary_variables_total rncore w) as (d & w1 & Hd).
  { intros x [Hx _]%elem_of_non_core.
    eauto using has_flux_variables_reaction, well_typed_reactions. }
  rewrite (bind_run _ _ _ _ _ Hd).
  apply generate_binary_variables_inr in Hd as (Htr & Hsub & Hdom & Hval & _).
  2:{ intros x [Hx _]%elem_of_non_core.
      eauto using has_flux_variables_reaction, well_typed_reactions. }
  eexists _, w1. split; [reflexivity|]. simpl. split_and!; [done|done|done|done|].
  intros x Hx.
  assert (is_Some (d !! x)) as [y Hy].
  { apply elem_of_dom. rewrite Hdom. by apply elem_of_list_to_set, elem_of_elements. }
  apply elem_of_non_core in Hx as [Hx _].
  destruct (proj1 (has_flux_variables_true _ _) (well_typed_reactions _ _ _ _ Hwt Hx))
    as (r & Hr & Hf & Hb).
  destruct (Hval _ _ Hy) as (_ & r' & _ & Hind).
  eexists. exists r, y. split_and!; [| |..|reflexivity];
    eauto using reaction_of_subseteq, is_variable_subseteq.
  unfold is_variable. by rewrite Hind.
Qed.

Lemma init_total GEM (ids : list string) cs C g path w cm td :
  well_typed (heap w) GEM cs = true →
  growth_admissible (heap w) GEM ids g = true →
  import_matlab_model ".." = inr cm →
  load_thermoDB path = inr td →
  ∃ self w', __init__ GEM ids cs C g path w = (inr self, w').
Proof.
  intros Hwt Hadm Himp Hload.
  destruct (init_reaches_constraints GEM ids cs C g path w cm td Hwt Himp Hload)
    as (self0 & w1 & -> & Hg & Hsub & _ & Hbio & Hnc).
  apply generate_constraints_total; [done|]. rewrite Hg.
  intros x [Hx (r & Hr & Hid)]%Hbio. exists r. split.
  - eauto using reaction_of_subseteq.
  - eauto using growth_admissible_reaction.
Qed.

(** A construction from well-typed inputs, with a growth rate that the
    biomass reactions admit and loaders that return, returns an instance
    with everything [constructed] records. *)
Lemma init_ok GEM (ids : list string) cs C g path w cm td :
  well_typed (heap w) GEM cs = true →
  growth_admissible (heap w) GEM ids g = true →
  import_matlab_model ".." = inr cm →
  load_thermoDB path = inr td →
  ∃ self w', __init__ GEM ids cs C g path w = (inr self, w') ∧
             constructed w GEM ids cs C g path self w'.
Proof.
  intros Hwt Hadm Himp Hload.
  destruct (init_total GEM ids cs C g path w cm td) as (self & w' & Hrun); try done.
  exists self, w'. split; [done|]. apply init_inr; [|done].
  by eapply well_typed_model.
Qed.

(** ** The partition *)

Lemma constructed_rBBB_designated w GEM ids cs C g path self w' :
  constructed w GEM ids cs C g path self w' →
  ∀ l, l ∈ reactions GEM →
       (l ∈ _rBBB self ↔ designated_biomass (heap w) ids l).
Proof.
  intros Hc l Hl. rewrite (c_rBBB _ _ _ _ _ _ _ _ _ Hc). unfold designated_biomass.
  tauto.
Qed.

Lemma constructed_rncore w GEM ids cs C g path self w' :
  constructed w GEM ids cs C g path self w' →
  ∀ l, l ∈ _rncore self ↔
       l ∈ reactions GEM ∧ (l ∉ _rcore self) ∧ (l ∉ _rBBB self).
Proof.
  intros Hc l. rewrite (c_rncore _ _ _ _ _ _ _ _ _ Hc). apply elem_of_non_core.
Qed.

Lemma constructed_rBBB_subseteq w GEM ids cs C g path self w' :
  constructed w GEM ids cs C g path self w' →
  ∀ l, l ∈ _rBBB self → l ∈ reactions GEM.
Proof. intros Hc l Hl. by apply (c_rBBB _ _ _ _ _ _ _ _ _ Hc) in Hl as [? _]. Qed.

(** C10: the core sets are exactly what the groupings hold, whether or not
    the model has those reactions; the non-core set holds model reactions
    only and meets neither the core set nor the biomass set.  (The
    hypotheses are what it takes for the constructor to return: objects of
    the right kind, a growth rate that cobra accepts as lower bound of the
    biomass reactions, loaders that return.) *)
Theorem C10_core_sets_unchecked GEM (ids : list string) cs C g path w cm td :
  well_typed (heap w) GEM cs = true →
  growth_admissible (heap w) GEM ids g = true →
  import_matlab_model ".." = inr cm →
  load_thermoDB path = inr td →
  ∃ self w', __init__ GEM ids cs C g path w = (inr self, w') ∧
    _rcore self = grouped cs ∧
    (∀ m, m ∈ _mcore self ↔
          ∃ l, l ∈ _rcore self ∧ m ∈ metabolites_of (heap w) l) ∧
    (∀ sub l, sub ∈ cs → l ∈ sub → l ∈ _rcore self) ∧
    _rncore self ⊆ list_to_set (reactions GEM) ∧
    _rncore self ## _rcore self ∧
    _rncore self ## _rBBB self.
Proof.
  intros Hwt Hadm Himp Hload.
  destruct (init_ok GEM ids cs C g path w cm td) as (self & w' & Hrun & Hc);
    try done.
  exists self, w'. split; [done|].
  pose proof (constructed_rncore _ _ _ _ _ _ _ _ _ Hc) as Hnc.
  split_and!.
  - apply Hc.
  - apply Hc.
  - intros sub l Hsub Hl. rewrite (c_rcore _ _ _ _ _ _ _ _ _ Hc).
    apply elem_of_grouped. eauto.
  - intros l Hl. apply elem_of_list_to_set. by apply Hnc in Hl as [? _].
  - intros l Hl Hl'. apply Hnc in Hl. tauto.
  - intros l Hl Hl'. apply Hnc in Hl. tauto.
Qed.

(** C2, as the code has it: no model reaction is left out of the three
    sets and the non-core set meets neither of the other two; the three
    sets are an exact partition of the model's reactions precisely when
    every reaction of the groupings is a model reaction that the biomass
    identifiers do not name. *)
Theorem C2_partition_covers GEM (ids : list string) cs C g path w cm td :
  well_typed (heap w) GEM cs = true →
  growth_admissible (heap w) GEM ids g = true →
  import_matlab_model ".." = inr cm →
  load_thermoDB path = inr td →
  ∃ self w', __init__ GEM ids cs C g path w = (inr self, w') ∧
    list_to_set (reactions GEM) ⊆ _rBBB self ∪ _rcore self ∪ _rncore self ∧
    _rncore self ## _rBBB self ∧
    _rncore self ## _rcore self ∧
    (exact_partition GEM self ↔
     ∀ l, l ∈ grouped cs →
          l ∈ reactions GEM ∧ ¬ designated_biomass (heap w) ids l).
Proof.
  intros Hwt Hadm Himp Hload.
  destruct (init_ok GEM ids cs C g path w cm td) as (self & w' & Hrun & Hc);
    try done.
  exists self, w'. split; [done|].
  pose proof (constructed_rncore _ _ _ _ _ _ _ _ _ Hc) as Hnc.
  pose proof (constructed_rBBB_designated _ _ _ _ _ _ _ _ _ Hc) as Hbio.
  pose proof (constructed_rBBB_subseteq _ _ _ _ _ _ _ _ _ Hc) as Hsub.
  pose proof (c_rcore _ _ _ _ _ _ _ _ _ Hc) as Hcore.
  assert (list_to_set (reactions GEM) ⊆ _rBBB self ∪ _rcore self ∪ _rncore self)
    as Hcover.
  { intros l Hl%elem_of_list_to_set.
    destruct (decide (l ∈ _rcore self)); [set_solver|].
    destruct (decide (l ∈ _rBBB self)); [set_solver|].
    apply elem_of_union_r, Hnc. done. }
  assert (_rncore self ## _rBBB self) as Hd1.
  { intros l Hl Hl'. apply Hnc in Hl. tauto. }
  assert (_rncore self ## _rcore self) as Hd2.
  { intros l Hl Hl'. apply Hnc in Hl. tauto. }
  split_and!; try done. unfold exact_partition. split.
  - intros (Hu & Hbc & _ & _) l Hl. rewrite <- Hcore in Hl.
    assert (l ∈ reactions GEM) as Hin.
    { apply (elem_of_list_to_set (C := gset loc)). rewrite <- Hu. set_solver. }
    split; [done|]. rewrite <- (Hbio l Hin). intros Hb. by apply (Hbc l).
  - intros Hin. split_and!.
    + apply set_eq. intros l. split; [|apply Hcover].
      rewrite !elem_of_union, elem_of_list_to_set.
      intros [[Hl|Hl]|Hl].
      * by apply Hsub.
      * rewrite Hcore in Hl. by apply Hin.
      * by apply Hnc in Hl as [? _].
    + intros l Hl Hl'. rewrite Hcore in Hl'.
      destruct (Hin l Hl') as [Hr Hnd]. by apply Hnd, Hbio.
    + intros l Hl Hl'. by apply (Hd1 l).
    + intros l Hl Hl'. by apply (Hd2 l).
Qed.

(** C3, as the code has it: a model reaction that is named as biomass and
    listed in a core subsystem is in the biomass set and in the core set,
    and not in the non-core set. *)
Theorem C3_overlap_in_both GEM (ids : list string) cs C g path w cm td :
  well_typed (heap w) GEM cs = true →
  growth_admissible (heap w) GEM ids g = true →
  import_matlab_model ".." = inr cm →
  load_thermoDB path = inr td →
  ∃ self w', __init__ GEM ids cs C g path w = (inr self, w') ∧
    ∀ l, l ∈ reactions GEM → designated_biomass (heap w) ids l →
         l ∈ grouped cs →
         l ∈ _rBBB self ∧ l ∈ _rcore self ∧ l ∉ _rncore self.
Proof.
  intros Hwt Hadm Himp Hload.
  destruct (init_ok GEM ids cs C g path w cm td) as (self & w' & Hrun & Hc);
    try done.
  exists self, w'. split; [done|]. intros l Hl Hd Hg.
  assert (l ∈ _rBBB self) as Hb
    by by apply (constructed_rBBB_designated _ _ _ _ _ _ _ _ _ Hc).
  split_and!; [done| |].
  - by rewrite (c_rcore _ _ _ _ _ _ _ _ _ Hc).
  - intros Hnc. apply (constructed_rncore _ _ _ _ _ _ _ _ _ Hc) in Hnc. tauto.
Qed.

(** C9, as the code has it: the constructor validates nothing about the
    partition inputs.  When the model's reactions are reaction objects with
    flux variables, the groupings hold reaction objects, the growth rate
    does not exceed the upper bound of a reaction that the identifiers
    name, and the loaders return, it returns an instance, whatever the
    identifiers and the groupings are; identifiers that name no model
    reaction select nothing, and empty inputs give empty sets. *)
Theorem C9_no_input_validation GEM (ids : list string) cs C g path w cm td :
  well_typed (heap w) GEM cs = true →
  growth_admissible (heap w) GEM ids g = true →
  import_matlab_model ".." = inr cm →
  load_thermoDB path = inr td →
  ∃ self w', __init__ GEM ids cs C g path w = (inr self, w') ∧
    (∀ l, l ∈ _rBBB self ↔
          l ∈ reactions GEM ∧ designated_biomass (heap w) ids l) ∧
    (ids = [] → _rBBB self = ∅) ∧
    (cs = [] → _rcore self = ∅ ∧ _mcore self = ∅) ∧
    (_rBBB self = ∅ → _rcore self = ∅ →
     _rncore self = list_to_set (reactions GEM)).
Proof.
  intros Hwt Hadm Himp Hload.
  destruct (init_ok GEM ids cs C g path w cm td) as (self & w' & Hrun & Hc);
    try done.
  exists self, w'. split; [done|].
  pose proof (constructed_rncore _ _ _ _ _ _ _ _ _ Hc) as Hnc.
  pose proof (c_rBBB _ _ _ _ _ _ _ _ _ Hc) as Hbio.
  pose proof (c_rcore _ _ _ _ _ _ _ _ _ Hc) as Hcore.
  split_and!.
  - intros l. apply Hbio.
  - intros ->. apply set_eq. intros l. rewrite Hbio. split; [|set_solver].
    intros (_ & r & _ & Hin). by apply elem_of_nil in Hin.
  - intros ->. change (grouped []) with (∅ : gset loc) in Hcore.
    split; [done|].
    apply set_eq. intros m. rewrite (c_mcore _ _ _ _ _ _ _ _ _ Hc), Hcore.
    split; [|by intros ?%not_elem_of_empty].
    by intros (l & ?%not_elem_of_empty & _).
  - intros E1 E2. apply set_eq. intros l.
    rewrite Hnc, E1, E2, elem_of_list_to_set.
    pose proof (not_elem_of_empty (C := gset loc) l). tauto.
Qed.

(** C4, as the code has it: the model handed to the thermodynamic engine is
    the one the model importer returns for the path written in the
    constructor, with the database loaded from [thermo_data_path]; the
    model the caller supplied is kept as [_GEM], and it is the base model
    exactly when the importer returns that very model. *)
Theorem C4_engine_receives_imported_model GEM (ids : list string) cs C g path
    w cm td :
  well_typed (heap w) GEM cs = true →
  growth_admissible (heap w) GEM ids g = true →
  import_matlab_model ".." = inr cm →
  load_thermoDB path = inr td →
  ∃ self w', __init__ GEM ids cs C g path w = (inr self, w') ∧
    _GEM self = GEM ∧
    _cobra_model self = cm ∧
    base_model (_tfa_model self) = cm ∧
    thermo_data (_tfa_model self) = td ∧
    model_name (_tfa_model self) = "Lumped Model" ∧
    (base_is_supplied_model self ↔ cm = GEM).
Proof.
  intros Hwt Hadm Himp Hload.
  destruct (init_ok GEM ids cs C g path w cm td) as (self & w' & Hrun & Hc);
    try done.
  exists self, w'. split; [done|].
  pose proof (c_import _ _ _ _ _ _ _ _ _ Hc) as E1.
  pose proof (c_load _ _ _ _ _ _ _ _ _ Hc) as E2.
  pose proof (c_base _ _ _ _ _ _ _ _ _ Hc) as E3.
  pose proof (c_GEM _ _ _ _ _ _ _ _ _ Hc) as E4.
  assert (base_model (_tfa_model self) = cm) as E5 by congruence.
  split_and!; [done|congruence|done|congruence|apply Hc|].
  unfold base_is_supplied_model. by rewrite E5, E4.
Qed.

(** ** Growth-rate bounds *)

Lemma forward_bounds_floor g r :
  (forward_bounds (with_lower_bound g r)).1 = Some (forward_floor g).
Proof.
  unfold forward_bounds, forward_floor; simpl.
  destruct (Qlt_le_dec 0 g); [done|]. by destruct (Qlt_le_dec (upper_bound r) 0).
Qed.

Lemma reverse_bounds_ceiling g r :
  (reverse_bounds (with_lower_bound g r)).2 = Some (reverse_ceiling g).
Proof.
  unfold reverse_bounds, reverse_ceiling; simpl.
  destruct (Qlt_le_dec 0 g); [done|]. by destruct (Qlt_le_dec (upper_bound r) 0).
Qed.

(** A forward flux at least [forward_floor g] and a reverse flux at most
    [reverse_ceiling g] leave a net flux of at least [g]. *)
Lemma floor_ceiling_net (g f b : Q) :
  (forward_floor g <= f → b <= reverse_ceiling g → g <= f - b)%Q.
Proof.
  unfold forward_floor, reverse_ceiling. destruct (Qlt_le_dec 0 g); intros; lra.
Qed.

Lemma flux_apart_ne h GEM l1 l2 r1 r2 :
  flux_apart h GEM = true →
  l1 ∈ reactions GEM → l2 ∈ reactions GEM →
  reaction_of h l1 = Some r1 → reaction_of h l2 = Some r2 →
  forward_variable r1 ≠ reverse_variable r2.
Proof.
  unfold flux_apart. rewrite forallb_forall. intros Hall H1 H2 Hr1 Hr2.
  specialize (Hall l1 (proj1 (list_elem_of_In _ _) H1)).
  rewrite forallb_forall in Hall.
  specialize (Hall l2 (proj1 (list_elem_of_In _ _) H2)).
  rewrite Hr1, Hr2 in Hall. by apply bool_decide_eq_true_1 in Hall.
Qed.

(** The biomass reactions when the constructor returns: the reactions
    they were, with the growth rate as lower bound. *)
Lemma constructed_biomass_bound w GEM ids cs C g path
    (self : LumpGEM ThermoDB) w' :
  constructed w GEM ids cs C g path self w' →
  ∀ l, l ∈ _rBBB self →
    ∃ r, l ∈ reactions GEM ∧ reaction_of (heap w) l = Some r ∧
         rxn_id r ∈ ids ∧
         reaction_of (heap w') l = Some (with_lower_bound g r).
Proof.
  intros Hc l Hl.
  destruct (c_heap _ _ _ _ _ _ _ _ _ Hc) as (h1 & (Hsub & _) & Hdone & _).
  destruct (Hdone l) as (r1 & Hr1 & Hl'); [by apply elem_of_elements|].
  apply (c_rBBB _ _ _ _ _ _ _ _ _ Hc) in Hl as (Hin & r & Hr & Hid).
  assert (r1 = r) as ->.
  { pose proof (reaction_of_subseteq _ _ _ _ Hsub Hr). congruence. }
  exists r. split_and!; try done. by apply reaction_of_Some.
Qed.

(** The flux variables of the biomass reactions when the constructor
    returns, in a model that keeps forward and reverse variables apart:
    the forward variable has [forward_floor g] as lower bound and the
    reverse variable [reverse_ceiling g] as upper bound. *)
Lemma constructed_flux_bounds w GEM ids cs C g path
    (self : LumpGEM ThermoDB) w' :
  constructed w GEM ids cs C g path self w' →
  well_typed (heap w) GEM cs = true →
  flux_apart (heap w) GEM = true →
  ∀ l r, l ∈ _rBBB self → reaction_of (heap w) l = Some r →
    ∃ vf vb,
      variable_of (heap w') (forward_variable r) = Some vf ∧
      var_lb vf = Some (forward_floor g) ∧
      variable_of (heap w') (reverse_variable r) = Some vb ∧
      var_ub vb = Some (reverse_ceiling g).
Proof.
  intros Hc Hwt Hap l r Hl Hr.
  destruct (c_heap _ _ _ _ _ _ _ _ _ Hc)
    as (h1 & (Hsub & _) & _ & _ & _ & _ & Hwr).
  pose proof (constructed_biomass_bound _ _ _ _ _ _ _ _ _ Hc) as Hbio.
  destruct (Hbio l Hl) as (r0 & Hin & Hr0 & _ & _).
  assert (r0 = r) as -> by congruence.
  pose proof (reaction_of_subseteq _ _ _ _ Hsub Hr) as Hr1.
  assert (has_flux_variables h1 l = true) as Hfl.
  { destruct (proj1 (has_flux_variables_true _ _)
                (well_typed_reactions _ _ _ _ Hwt Hin)) as (r' & Hr' & Hf & Hb).
    apply has_flux_variables_true. exists r'.
    split_and!; eauto using reaction_of_subseteq, is_variable_subseteq. }
  assert (∀ l' r', l' ∈ elements (_rBBB self) → reaction_of h1 l' = Some r' →
            l' ∈ reactions GEM ∧ reaction_of (heap w) l' = Some r') as Hback.
  { intros l' r' Hl'%elem_of_elements Hr'.
    destruct (Hbio l' Hl') as (r'' & Hin' & Hr'' & _ & _).
    pose proof (reaction_of_subseteq _ _ _ _ Hsub Hr''). split; [done|congruence]. }
  destruct (Hwr l (forward_variable r)) as (vf & Hvf & l1 & r1 & Hl1 & Hr1' & Hc1);
    [by apply elem_of_elements|done|apply (elem_of_flux_refs h1 l r); eauto|].
  destruct (Hwr l (reverse_variable r)) as (vb & Hvb & l2 & r2 & Hl2 & Hr2' & Hc2);
    [by apply elem_of_elements|done|apply (elem_of_flux_refs h1 l r); eauto|].
  destruct (Hback l1 r1 Hl1 Hr1') as [Hin1 Hr1w].
  destruct (Hback l2 r2 Hl2 Hr2') as [Hin2 Hr2w].
  exists vf, vb. split_and!; try done.
  - destruct Hc1 as [[_ Hbd]|[Heq _]].
    + pose proof (forward_bounds_floor g r1) as Hfl1. rewrite <- Hbd in Hfl1. done.
    + by destruct (flux_apart_ne _ _ l l1 r r1 Hap Hin Hin1 Hr Hr1w).
  - destruct Hc2 as [[Heq _]|[_ Hbd]].
    + by destruct (flux_apart_ne _ _ l2 l r2 r Hap Hin2 Hin Hr2w Hr).
    + pose proof (reverse_bounds_ceiling g r2) as Hce. rewrite <- Hbd in Hce. done.
Qed.

(** C7: after construction every reaction of the biomass set, that is every
    model reaction named by a biomass identifier, has the growth rate given
    to the constructor as its lower bound; and in a model that keeps forward
    and reverse variables apart its two flux variables carry the bounds
    cobra derives from it, so that every assignment within the bounds of
    the variables has a net flux of at least the growth rate through the
    reaction. *)
Theorem C7_growth_rate_lower_bound GEM (ids : list string) cs C g path w cm td :
  well_typed (heap w) GEM cs = true →
  growth_admissible (heap w) GEM ids g = true →
  import_matlab_model ".." = inr cm →
  load_thermoDB path = inr td →
  ∃ self w', __init__ GEM ids cs C g path w = (inr self, w') ∧
    (∀ l, l ∈ _rBBB self ↔
          l ∈ reactions GEM ∧ designated_biomass (heap w) ids l) ∧
    (∀ l, l ∈ _rBBB self →
       ∃ r', reaction_of (heap w') l = Some r' ∧
             lower_bound r' = g ∧ (g <= upper_bound r')%Q) ∧
    (flux_apart (heap w) GEM = true →
     ∀ l r', l ∈ _rBBB self → reaction_of (heap w') l = Some r' →
       ∃ vf vb,
         variable_of (heap w') (forward_variable r') = Some vf ∧
         var_lb vf = Some (forward_floor g) ∧
         variable_of (heap w') (reverse_variable r') = Some vb ∧
         var_ub vb = Some (reverse_ceiling g) ∧
         ∀ ρ : loc → Q,
           within (heap w') ρ (forward_variable r') →
           within (heap w') ρ (reverse_variable r') →
           (g <= ρ (forward_variable r') - ρ (reverse_variable r'))%Q).
Proof.
  intros Hwt Hadm Himp Hload.
  destruct (init_ok GEM ids cs C g path w cm td) as (self & w' & Hrun & Hc);
    try done.
  exists self, w'. split; [done|].
  pose proof (constructed_biomass_bound _ _ _ _ _ _ _ _ _ Hc) as Hbio.
  split_and!.
  - apply Hc.
  - intros l Hl. destruct (Hbio l Hl) as (r & Hin & Hr & Hid & Hr').
    exists (with_lower_bound g r). split_and!; [done|done|]. simpl.
    apply Qle_bool_iff. eauto using growth_admissible_reaction.
  - intros Hap l r' Hl Hr'.
    destruct (Hbio l Hl) as (r & Hin & Hr & Hid & Hr'').
    assert (r' = with_lower_bound g r) as -> by congruence. simpl.
    destruct (constructed_flux_bounds _ _ _ _ _ _ _ _ _ Hc Hwt Hap l r Hl Hr)
      as (vf & vb & Hvf & Hlb & Hvb & Hub).
    exists vf, vb. split_and!; try done.
    intros ρ (vf' & Hvf' & Hlo & _) (vb' & Hvb' & _ & Hhi).
    assert (vf' = vf) as -> by congruence.
    assert (vb' = vb) as -> by congruence.
    rewrite Hlb in Hlo. rewrite Hub in Hhi. by apply floor_ceiling_net.
Qed.

(** ** Indicators and carbon-uptake constraints *)

Lemma spec_uptake_semantics f b y C :
  uptake_semantics f b y C (spec_uptake_constraint f b y C).
Proof.
  intros ρ. unfold satisfies, spec_uptake_constraint; simpl.
  split_and!.
  - intros Hy. rewrite Hy. split; [intros [_ H]|intros H; split; [done|]]; lra.
  - intros Hy. rewrite Hy. split; [intros [_ H]|intros H; split; [done|]]; lra.
  - intros Hy Hf Hb [_ H]. rewrite Hy in H. split; lra.
Qed.

(** With a limit other than 0 the constraint the code builds is, term for
    term, the one the specification writes. *)
Lemma uptake_constraint_spec f b y C :
  ¬ (C == 0)%Q → uptake_constraint f b y C = spec_uptake_constraint f b y C.
Proof.
  intros HC. unfold uptake_constraint, spec_uptake_constraint, sym_mul.
  destruct (Qeq_bool C 0) eqn:E; [|done].
  by apply Qeq_bool_iff in E.
Qed.

(** With any limit, the two constraints have the same solutions: a product
    by 0 that the symbolic layer drops is null. *)
Lemma uptake_constraint_equiv f b y C (ρ : loc → Q) :
  satisfies ρ (uptake_constraint f b y C) ↔
  satisfies ρ (spec_uptake_constraint f b y C).
Proof.
  destruct (Qeq_bool C 0) eqn:E.
  - apply Qeq_bool_iff in E.
    assert (C * ρ y == 0)%Q as Hz by (rewrite E; ring).
    unfold uptake_constraint, spec_uptake_constraint, sym_mul, satisfies.
    rewrite (proj2 (Qeq_bool_iff C 0) E). simpl.
    split; (intros [_ H]; split; [done|]); lra.
  - rewrite uptake_constraint_spec; [done|].
    intros HC. apply Qeq_bool_iff in HC. congruence.
Qed.

Lemma uptake_constraint_semantics f b y C :
  uptake_semantics f b y C (uptake_constraint f b y C).
Proof.
  intros ρ. pose proof (spec_uptake_semantics f b y C ρ) as (H1 & H0 & Hz).
  pose proof (uptake_constraint_equiv f b y C ρ) as Heq.
  split_and!; intros; rewrite ?Heq; eauto.
  apply Hz; try done. by apply Heq.
Qed.

(** The non-core reactions are the objects they were before the call. *)
Lemma constructed_rncore_reaction w GEM ids cs C g path self w' :
  constructed w GEM ids cs C g path self w' →
  ∀ l r, l ∈ _rncore self →
         reaction_of (heap w) l = Some r → reaction_of (heap w') l = Some r.
Proof.
  intros Hc l r Hl Hr.
  destruct (c_heap _ _ _ _ _ _ _ _ _ Hc) as (h1 & (Hsub & _) & Hb).
  eapply bounds_set_reaction; [exact Hb| |by eapply reaction_of_subseteq].
  rewrite elem_of_elements.
  apply (constructed_rncore _ _ _ _ _ _ _ _ _ Hc) in Hl. tauto.
Qed.

(** The non-core set in terms of the inputs: the model reactions that no
    grouping lists and no biomass identifier names. *)
Lemma constructed_rncore_inputs w GEM ids cs C g path self w' :
  constructed w GEM ids cs C g path self w' →
  ∀ l, l ∈ _rncore self ↔
       l ∈ reactions GEM ∧ (l ∉ grouped cs) ∧
       ¬ designated_biomass (heap w) ids l.
Proof.
  intros Hc l. rewrite (constructed_rncore _ _ _ _ _ _ _ _ _ Hc).
  rewrite (c_rcore _ _ _ _ _ _ _ _ _ Hc).
  split.
  - intros (Hin & Hcore & Hbio). split_and!; [done|done|].
    intros Hd. by apply Hbio, (constructed_rBBB_designated _ _ _ _ _ _ _ _ _ Hc).
  - intros (Hin & Hcore & Hbio). split_and!; [done|done|].
    intros Hd. by apply Hbio, (constructed_rBBB_designated _ _ _ _ _ _ _ _ _ Hc).
Qed.

(** An indicator is a new object, and it is still the binary variable it
    was created as when the constructor returns. *)
Lemma constructed_indicator w GEM ids cs C g path self w' :
  constructed w GEM ids cs C g path self w' →
  well_typed (heap w) GEM cs = true →
  ∀ l y, _bin_vars self !! l = Some y →
         heap w !! y = None ∧
         ∃ r, reaction_of (heap w) l = Some r ∧
              heap w' !! y = Some (indicator_of r).
Proof.
  intros Hc Hwt l y Hy.
  destruct (c_heap _ _ _ _ _ _ _ _ _ Hc)
    as (h1 & (Hsub & _ & Hval & _) & _ & _ & _ & Hframe & _).
  destruct (Hval l y Hy) as (Hnew & r & Hr & Hind).
  split; [done|]. exists r. split; [done|].
  pose proof (constructed_biomass_bound _ _ _ _ _ _ _ _ _ Hc) as Hbio.
  rewrite Hframe; [done| |].
  - intros (r' & _ & Hr'%reaction_of_Some & _)%elem_of_elements%Hbio. congruence.
  - intros (l' & (r' & Hin & Hr' & _)%elem_of_elements%Hbio & Hyl).
    apply (elem_of_flux_refs h1 l' r') in Hyl;
      [|by eapply reaction_of_subseteq].
    destruct (proj1 (has_flux_variables_true _ _)
                (well_typed_reactions _ _ _ _ Hwt Hin)) as (r'' & Hr'' & Hf & Hb).
    assert (r'' = r') as -> by congruence.
    unfold is_variable in Hf, Hb.
    destruct Hyl as [->| ->]; [by rewrite Hnew in Hf|by rewrite Hnew in Hb].
Qed.

Lemma Forall2_filter_none {A B} (P : A → B → Prop) (R : B → Prop)
    `{∀ c, Decision (R c)} (xs : list A) (cs : list B) :
  Forall2 P xs cs →
  (∀ x c, x ∈ xs → P x c → ¬ R c) →
  filter R cs = [].
Proof.
  induction 1 as [|x c xs cs HP _ IH]; intros Hno; [done|].
  rewrite filter_cons_False; [|apply (Hno x); [by left|done]].
  apply IH. intros x' c' Hx'. apply Hno. by right.
Qed.

(** Among constraints that correspond one to one to distinct keys, the
    property that singles out the key [x] selects the constraint of [x]. *)
Lemma Forall2_filter_unique {A B} (P : A → B → Prop) (R : B → Prop)
    `{∀ c, Decision (R c)} (xs : list A) (cs : list B) (x : A) :
  Forall2 P xs cs → NoDup xs → x ∈ xs →
  (∀ x' c', x' ∈ xs → P x' c' → (R c' ↔ x' = x)) →
  ∃ c, P x c ∧ filter R cs = [c].
Proof.
  induction 1 as [|x0 c0 xs cs HP Hall IH]; intros Hnd Hx Hiff.
  - by apply elem_of_nil in Hx.
  - apply NoDup_cons in Hnd as [Hx0 Hnd].
    apply elem_of_cons in Hx as [<-|Hx].
    + exists c0. split; [done|].
      rewrite filter_cons_True; [|apply (Hiff x); [by left|done|done]].
      f_equal. apply (Forall2_filter_none P R xs cs Hall).
      intros x' c' Hx' HP' HR. apply (Hiff x' c') in HR; [|by right|done].
      congruence.
    + assert (x0 ≠ x) as Hne by (by intros ->).
      destruct IH as (c & HPc & Hf); [done|done| |].
      { intros x' c' Hx'. apply Hiff. by right. }
      exists c. split; [done|].
      rewrite filter_cons_False; [done|].
      intros HR. apply (Hiff x0 c0) in HR; [done|by left|done].
Qed.

(** C1: the non-core reactions are the model reactions that no grouping
    lists and no biomass identifier names; construction adds, for them in
    turn and for nothing else, the constraint that the code writes as
    [f + b + C * y] with upper bound [C] over each reaction's two flux
    variables and its indicator.  That constraint has the solutions of
    [f + b + C * y <= C], and is that very expression unless [C] is 0; with
    the indicator at 1 it holds exactly when the combined flux is at most 0
    (null, for non-negative fluxes), with the indicator at 0 exactly when
    it is at most [C]. *)
Theorem C1_carbon_uptake_constraints GEM (ids : list string) cs C g path w cm td :
  well_typed (heap w) GEM cs = true →
  growth_admissible (heap w) GEM ids g = true →
  import_matlab_model ".." = inr cm →
  load_thermoDB path = inr td →
  ∃ self w', __init__ GEM ids cs C g path w = (inr self, w') ∧
    _C_uptake self = C ∧
    (∀ l, l ∈ _rncore self ↔
          l ∈ reactions GEM ∧ (l ∉ grouped cs) ∧
          ¬ designated_biomass (heap w) ids l) ∧
    Forall2 (uptake_constraint_of (heap w') (_bin_vars self) C)
            (elements (_rncore self)) (added_cons_vars (_tfa_model self)) ∧
    ∀ l, l ∈ reactions GEM → l ∉ grouped cs →
         ¬ designated_biomass (heap w) ids l →
      ∃ r y c, reaction_of (heap w) l = Some r ∧
               reaction_of (heap w') l = Some r ∧
               _bin_vars self !! l = Some y ∧
               c ∈ added_cons_vars (_tfa_model self) ∧
               c = uptake_constraint (forward_variable r) (reverse_variable r) y C ∧
               (¬ (C == 0)%Q →
                c = spec_uptake_constraint
                      (forward_variable r) (reverse_variable r) y C) ∧
               (∀ ρ : loc → Q,
                  satisfies ρ c ↔
                  (ρ (forward_variable r) + ρ (reverse_variable r) + C * ρ y
                   <= C)%Q) ∧
               uptake_semantics (forward_variable r) (reverse_variable r) y C c.
Proof.
  intros Hwt Hadm Himp Hload.
  destruct (init_ok GEM ids cs C g path w cm td) as (self & w' & Hrun & Hc);
    try done.
  exists self, w'. split; [done|].
  pose proof (c_constraints _ _ _ _ _ _ _ _ _ Hc) as Hall.
  pose proof (constructed_rncore_inputs _ _ _ _ _ _ _ _ _ Hc) as Hnc.
  split_and!; [apply Hc|done|done|].
  intros l Hin Hcore Hbio.
  assert (l ∈ _rncore self) as Hl by (by apply Hnc).
  pose proof Hl as Hl'%elem_of_elements.
  apply list_elem_of_lookup in Hl' as [i Hi].
  destruct (Forall2_lookup_l _ _ _ _ _ Hall Hi)
    as (c & Hci & r & y & Hr & Hy & _ & _ & _ & ->).
  destruct (proj1 (has_flux_variables_true _ _)
              (well_typed_reactions _ _ _ _ Hwt Hin)) as (r0 & Hr0 & _).
  pose proof (constructed_rncore_reaction _ _ _ _ _ _ _ _ _ Hc l r0 Hl Hr0).
  assert (r0 = r) as -> by congruence.
  exists r, y, (uptake_constraint (forward_variable r) (reverse_variable r) y C).
  split_and!; try done.
  - apply list_elem_of_lookup. eauto.
  - apply uptake_constraint_spec.
  - intros ρ. rewrite uptake_constraint_equiv.
    unfold satisfies, spec_uptake_constraint; simpl. tauto.
  - apply uptake_constraint_semantics.
Qed.

(** C8, for a positive carbon-uptake limit, as the specification requires
    of that parameter: construction creates one indicator per non-core
    reaction (the model reactions that no grouping lists and no biomass
    identifier names), a new variable object of type binary with bounds 0
    and 1 that bears the reaction's identifier, keyed by the reaction;
    distinct reactions have distinct indicators, and each indicator occurs
    in one of the added constraints only, the one of its reaction.  (With a
    limit of 0 the product by the indicator is dropped from the expression,
    and the indicator occurs in no constraint.) *)
Theorem C8_one_indicator_per_reaction GEM (ids : list string) cs C g path w cm td :
  well_typed (heap w) GEM cs = true →
  growth_admissible (heap w) GEM ids g = true →
  import_matlab_model ".." = inr cm →
  load_thermoDB path = inr td →
  (0 < C)%Q →
  ∃ self w', __init__ GEM ids cs C g path w = (inr self, w') ∧
    (∀ l, l ∈ dom (_bin_vars self) ↔
          l ∈ reactions GEM ∧ (l ∉ grouped cs) ∧
          ¬ designated_biomass (heap w) ids l) ∧
    dom (_bin_vars self) = _rncore self ∧
    (∀ l y, _bin_vars self !! l = Some y →
       heap w !! y = None ∧
       ∃ v, heap w' !! y = Some (OVariable v) ∧ var_type v = "binary" ∧
            var_lb v = Some 0%Q ∧ var_ub v = Some 1%Q ∧
            id_of (heap w) l = Some (var_name v)) ∧
    (∀ l1 l2 y, _bin_vars self !! l1 = Some y →
                _bin_vars self !! l2 = Some y → l1 = l2) ∧
    (∀ l y, _bin_vars self !! l = Some y →
       ∃ c, uptake_constraint_of (heap w') (_bin_vars self) C l c ∧
            filter (λ c', y ∈ expr_vars (expression c'))
                   (added_cons_vars (_tfa_model self)) = [c]).
Proof.
  intros Hwt Hadm Himp Hload HC.
  destruct (init_ok GEM ids cs C g path w cm td) as (self & w' & Hrun & Hc);
    try done.
  exists self, w'. split; [done|].
  pose proof (c_constraints _ _ _ _ _ _ _ _ _ Hc) as Hall.
  pose proof (constructed_indicator _ _ _ _ _ _ _ _ _ Hc Hwt) as Hind.
  destruct (c_heap _ _ _ _ _ _ _ _ _ Hc) as (h1 & (_ & Hdom & _ & Hinj & _) & _).
  assert (dom (_bin_vars self) = _rncore self) as Hdom'.
  { rewrite Hdom. apply set_eq. intros l.
    by rewrite elem_of_list_to_set, elem_of_elements. }
  assert (¬ (C == 0)%Q) as HC0 by (intros E; rewrite E in HC; lra).
  split_and!; [|done| |done|].
  - intros l. rewrite Hdom'.
    apply (constructed_rncore_inputs _ _ _ _ _ _ _ _ _ Hc).
  - intros l y Hy. destruct (Hind l y Hy) as (Hnew & r & Hr & Hy').
    split; [done|]. eexists. split; [exact Hy'|]. simpl.
    split_and!; try done. by apply id_of_reaction.
  - intros l y Hy.
    apply (Forall2_filter_unique _ _ _ _ l Hall).
    + apply NoDup_elements.
    + apply elem_of_elements. rewrite <- Hdom'. apply elem_of_dom. eauto.
    + intros l' c' Hl'%elem_of_elements (r' & y' & Hr' & Hy' & _ & _ & _ & ->).
      rewrite uptake_constraint_spec by done.
      simpl. rewrite !elem_of_cons, elem_of_nil.
      split; [|intros ->; right; right; left; congruence].
      destruct (Hind l y Hy) as (Hnew & _).
      assert (l' ∈ reactions GEM) as Hin
        by (apply (constructed_rncore _ _ _ _ _ _ _ _ _ Hc) in Hl'; tauto).
      destruct (proj1 (has_flux_variables_true _ _)
                  (well_typed_reactions _ _ _ _ Hwt Hin)) as (r0 & Hr0 & Hf & Hb).
      pose proof (constructed_rncore_reaction _ _ _ _ _ _ _ _ _ Hc l' r0 Hl' Hr0)
        as Hr0'.
      assert (r' = r0) as -> by congruence.
      unfold is_variable in Hf, Hb.
      intros [->|[->|[->|[]]]].
      * by rewrite Hnew in Hf.
      * by rewrite Hnew in Hb.
      * by apply (Hinj l' l y').
Qed.

(** ** Thermodynamic gating *)

Lemma classic_annotation h (done : list loc) d :
  annotation_of h done d ∨ ¬ annotation_of h done d.
Proof.
  unfold annotation_of. induction done as [|x done [IH|IH]].
  - right. intros (l & Hl & _). by apply elem_of_nil in Hl.
  - left. destruct IH as (l & Hl & Hd). exists l. split; [by right|done].
  - destruct (decide (thermo_ref h x = Some d)) as [Hx|Hx].
    + left. exists x. split; [by left|done].
    + right. intros (l & [->|Hl]%elem_of_cons & Hd); [done|].
      apply IH. eauto.
Qed.

Lemma dict_setitem_inr d key value w u w' :
  dict_setitem d key value w = (inr u, w') →
  ∃ m, heap w !! d = Some (ODict m) ∧
       w' = {| heap := <[d := ODict (<[key := value]> m)]> (heap w);
               trace := trace w |}.
Proof.
  unfold dict_setitem. destruct (heap w !! d) as [[]|] eqn:E; try by intros [=].
  unfold put_obj. intros [= <- <-]. eauto.
Qed.

Lemma clear_computed_inr l w u w' :
  clear_computed l w = (inr u, w') →
  ∃ d m, thermo_ref (heap w) l = Some d ∧ heap w !! d = Some (ODict m) ∧
         w' = {| heap := <[d := ODict (<["computed" := PyBool false]> m)]> (heap w);
                 trace := trace w |}.
Proof.
  unfold clear_computed. intros Hrun.
  apply bind_inr in Hrun as (r & w1 & Hr & Hrun).
  apply get_reaction_inr in Hr as [Hr ->].
  destruct (thermo r) as [d|] eqn:Hd; [|discriminate Hrun].
  apply dict_setitem_inr in Hrun as (m & Hm & ->).
  exists d, m. split_and!; [|done|done].
  unfold thermo_ref. by rewrite Hr.
Qed.

Lemma clear_computed_run l w d m :
  thermo_ref (heap w) l = Some d → heap w !! d = Some (ODict m) →
  clear_computed l w =
  (inr tt, {| heap := <[d := ODict (<["computed" := PyBool false]> m)]> (heap w);
              trace := trace w |}).
Proof.
  unfold thermo_ref, clear_computed. intros Hd Hm.
  destruct (reaction_of (heap w) l) as [r|] eqn:Hr; [|done]. simpl in Hd.
  rewrite (bind_run _ _ _ _ _ (get_reaction_run _ _ _ Hr)), Hd.
  unfold dict_setitem. by rewrite Hm.
Qed.

(** Gating writes dictionaries only: every reaction object stays as it is. *)
Lemma gated_reaction_of h h1 done l :
  gated h h1 done → reaction_of h1 l = reaction_of h l.
Proof.
  intros [Hin Hout]. unfold reaction_of.
  destruct (classic_annotation h done l) as [Ha|Ha].
  - destruct (Hin l Ha) as (m & -> & ->). done.
  - by rewrite (Hout l Ha).
Qed.

Lemma gated_thermo_ref h h1 done l :
  gated h h1 done → thermo_ref h1 l = thermo_ref h l.
Proof.
  intros Hg. unfold thermo_ref. by rewrite (gated_reaction_of h h1 done l Hg).
Qed.

Lemma annotation_of_app h pre x d :
  annotation_of h (pre ++ [x]) d ↔
  annotation_of h pre d ∨ thermo_ref h x = Some d.
Proof.
  unfold annotation_of. split.
  - intros (l & [Hl| ->%list_elem_of_singleton]%elem_of_app & Hd); eauto.
  - intros [(l & Hl & Hd)|Hd].
    + exists l. split; [|done]. apply elem_of_app. by left.
    + exists x. split; [|done]. apply elem_of_app. right. by left.
Qed.

Lemma gate_loop_inr xs w u w' :
  foldM (λ _ ncrxn, clear_computed ncrxn) tt xs w = (inr u, w') →
  trace w' = trace w ∧ gated (heap w) (heap w') xs.
Proof.
  apply (foldM_ind _ (λ pre _ w1,
    trace w1 = trace w ∧ gated (heap w) (heap w1) pre)).
  - intros pre x post [] w1 [] w2 _ [Htr Hg] Hstep.
    apply clear_computed_inr in Hstep as (d & m1 & Hd & Hm1 & ->). simpl.
    rewrite (gated_thermo_ref _ _ _ _ Hg) in Hd.
    destruct Hg as [Hin Hout].
    split; [done|]. split.
    + intros d' [Ha|Hx]%annotation_of_app.
      * destruct (Hin d' Ha) as (m & Hm & Hm').
        exists m. split; [done|].
        destruct (decide (d' = d)) as [->|Hne].
        -- rewrite lookup_insert_eq. rewrite Hm' in Hm1. injection Hm1 as <-.
           by rewrite insert_insert_eq.
        -- by rewrite lookup_insert_ne.
      * assert (d' = d) as -> by congruence.
        rewrite lookup_insert_eq.
        destruct (classic_annotation (heap w) pre d) as [Ha|Ha].
        -- destruct (Hin d Ha) as (m & Hm & Hm').
           exists m. split; [done|]. rewrite Hm' in Hm1. injection Hm1 as <-.
           by rewrite insert_insert_eq.
        -- exists m1. split; [|done]. by rewrite <- (Hout d Ha).
    + intros d' Hna.
      assert (¬ annotation_of (heap w) pre d' ∧ d' ≠ d) as [Hna' Hne].
      { split.
        - intros Ha. apply Hna, annotation_of_app. by left.
        - intros ->. apply Hna, annotation_of_app. by right. }
      rewrite lookup_insert_ne by done. by apply Hout.
  - split; [done|]. split; [|done].
    intros d (l & Hl & _). by apply elem_of_nil in Hl.
Qed.

Lemma annotated_true h l :
  annotated h l = true ↔
  ∃ d m, thermo_ref h l = Some d ∧ h !! d = Some (ODict m).
Proof.
  unfold annotated, thermo_dict.
  destruct (thermo_ref h l) as [d|]; simpl.
  - destruct (h !! d) as [[]|] eqn:E; split; try done;
      try (by intros (d' & m' & [= <-] & Hm); rewrite E in Hm).
    intros _. eauto.
  - split; [done|]. by intros (d' & m & [=] & _).
Qed.

Lemma gate_loop_total xs w :
  forallb (annotated (heap w)) xs = true →
  ∃ w', foldM (λ _ ncrxn, clear_computed ncrxn) tt xs w = (inr tt, w').
Proof.
  intros Hall.
  destruct (foldM_total (λ _ ncrxn, clear_computed ncrxn)
              (λ _ w1, (∀ l, thermo_ref (heap w1) l = thermo_ref (heap w) l) ∧
                       (∀ d m, heap w !! d = Some (ODict m) →
                               ∃ m', heap w1 !! d = Some (ODict m')))
              xs tt w) as ([] & w' & Hrun & _); [by eauto| |by eauto].
  intros x [] w1 Hx [Href Hdict].
  rewrite forallb_forall in Hall.
  destruct (proj1 (annotated_true _ _) (Hall x (proj1 (list_elem_of_In _ _) Hx)))
    as (d & m & Hd & Hm).
  destruct (Hdict d m Hm) as [m' Hm'].
  rewrite <- Href in Hd.
  eexists tt, _. split; [by apply (clear_computed_run x w1 d m')|]. simpl. split.
  - intros l. rewrite <- Href. unfold thermo_ref, reaction_of.
    destruct (decide (l = d)) as [->|Hne].
    + by rewrite lookup_insert_eq, Hm'.
    + by rewrite lookup_insert_ne.
  - intros d0 m0 Hm0. destruct (decide (d0 = d)) as [->|Hne].
    + rewrite lookup_insert_eq. eauto.
    + rewrite lookup_insert_ne by done. eauto.
Qed.

Lemma tell_run ev w :
  tell ev w = (inr tt, {| heap := heap w; trace := trace w ++ [ev] |}).
Proof. reflexivity. Qed.

Lemma shares_annotation_dec h (rs : gset loc) l :
  shares_annotation h rs l ∨ ¬ shares_annotation h rs l.
Proof.
  unfold shares_annotation. destruct (thermo_ref h l) as [d|].
  - destruct (classic_annotation h (elements rs) d) as [Ha|Ha].
    + left. eauto.
    + right. intros (d' & [= <-] & Ha'). done.
  - right. by intros (d & [=] & _).
Qed.

(** C6, as the code has it: when every non-core reaction carries an
    annotation the gating step returns, and after it ['computed'] is
    [False] for every non-core reaction.  A reaction outside the non-core
    set keeps all its attributes; it keeps its flag when it does not hold
    the annotation dictionary of a non-core reaction, and has it set to
    [False] when it does.  So the flags outside the non-core set are all
    unchanged exactly when those that share a dictionary with a non-core
    reaction were [False] already. *)
Theorem C6_thermo_gate_frame (self : LumpGEM ThermoDB) (w : World) :
  forallb (annotated (heap w)) (elements (_rncore self)) = true →
  ∃ w', step_thermo_gate self w = (inr tt, w') ∧
    (∀ l, l ∈ _rncore self →
          computed_flag (heap w') l = Some (PyBool false)) ∧
    (∀ l, l ∉ _rncore self →
          reaction_of (heap w') l = reaction_of (heap w) l ∧
          (¬ shares_annotation (heap w) (_rncore self) l →
           computed_flag (heap w') l = computed_flag (heap w) l) ∧
          (shares_annotation (heap w) (_rncore self) l →
           computed_flag (heap w') l = Some (PyBool false))) ∧
    (gate_frame (_rncore self) (heap w) (heap w') ↔
     ∀ l, l ∉ _rncore self → shares_annotation (heap w) (_rncore self) l →
          computed_flag (heap w) l = Some (PyBool false)).
Proof.
  intros Hann. unfold step_thermo_gate.
  rewrite (bind_run _ _ _ _ _ (tell_run EvThermoGate w)).
  set (w0 := {| heap := heap w; trace := trace w ++ [EvThermoGate] |}).
  destruct (gate_loop_total (elements (_rncore self)) w0) as [w' Hrun]; [done|].
  exists w'. split; [done|].
  apply gate_loop_inr in Hrun as [_ Hg]. simpl in Hg.
  assert (∀ l, thermo_ref (heap w') l = thermo_ref (heap w) l) as Href
    by (intros l; by eapply gated_thermo_ref).
  assert (∀ l, reaction_of (heap w') l = reaction_of (heap w) l) as Hrxn
    by (intros l; by eapply gated_reaction_of).
  destruct Hg as [Hin Hout].
  assert (∀ l, shares_annotation (heap w) (_rncore self) l →
               computed_flag (heap w') l = Some (PyBool false)) as Hshared.
  { intros l (d & Hd & Ha). destruct (Hin d Ha) as (m' & _ & Hm').
    unfold computed_flag, thermo_dict. rewrite Href, Hd. simpl. rewrite Hm'. simpl.
    by rewrite lookup_insert_eq. }
  assert (∀ l, ¬ shares_annotation (heap w) (_rncore self) l →
               computed_flag (heap w') l = computed_flag (heap w) l) as Hapart.
  { intros l Hns. unfold computed_flag, thermo_dict. rewrite Href.
    destruct (thermo_ref (heap w) l) as [d|] eqn:Hd; [|done]. simpl.
    rewrite Hout; [done|]. intros Ha. apply Hns. exists d. by rewrite Hd. }
  assert (∀ l, l ∈ _rncore self →
               computed_flag (heap w') l = Some (PyBool false)) as Hnc.
  { intros l Hl. apply Hshared.
    rewrite forallb_forall in Hann.
    destruct (proj1 (annotated_true _ _)
                (Hann l (proj1 (list_elem_of_In _ _) (proj2 (elem_of_elements _ _) Hl))))
      as (d & m & Hd & Hm).
    exists d. split; [done|]. exists l. split; [by apply elem_of_elements|done]. }
  split_and!; [done| |].
  - intros l Hl. split_and!; [apply Hrxn|apply Hapart|apply Hshared].
  - split.
    + intros [_ Hsame] l Hl Hs. rewrite <- (Hsame l Hl). by apply Hshared.
    + intros Hfalse. split; [done|]. intros l Hl.
      destruct (shares_annotation_dec (heap w) (_rncore self) l) as [Hs|Hs].
      * rewrite (Hshared l Hs). symmetry. by apply Hfalse.
      * by apply Hapart.
Qed.

(** ** The optimisation run *)

Lemma bind_inl {A B} (c : M A) (k : A → M B) w e w1 :
  c w = (inl e, w1) → (c ≫= k) w = (inl e, w1).
Proof. unfold mbind, M_bind. by intros ->. Qed.

Lemma clear_computed_trace l w : trace (clear_computed l w).2 = trace w.
Proof.
  unfold clear_computed, mbind, M_bind, get_reaction, dict_setitem, raise, put_obj.
  destruct (heap w !! l) as [[r| | | |]|]; try done.
  destruct (thermo r) as [d|]; [|done].
  by destruct (heap w !! d) as [[]|].
Qed.

Lemma foldM_trace {A B} (f : B → A → M B) (xs : list A) b w :
  (∀ b1 x w1, trace (f b1 x w1).2 = trace w1) →
  trace (foldM f b xs w).2 = trace w.
Proof.
  intros Hf. revert b w. induction xs as [|x xs IH]; intros b w; [done|].
  simpl. unfold mbind, M_bind. specialize (Hf b x w).
  destruct (f b x w) as [[e|b'] w1]; [done|]. by rewrite IH.
Qed.

Lemma step_prepare_trace (self : LumpGEM ThermoDB) w :
  trace (step_prepare self w).2 = trace w ++ [EvPrepare].
Proof.
  unfold step_prepare, mbind, M_bind, tell, extern, mret, M_ret. simpl.
  by destruct (prepare _ _) as [[e|m] h].
Qed.

Lemma step_thermo_gate_trace (self : LumpGEM ThermoDB) w :
  trace (step_thermo_gate self w).2 = trace w ++ [EvThermoGate].
Proof.
  unfold step_thermo_gate. rewrite (bind_run _ _ _ _ _ (tell_run _ w)).
  rewrite foldM_trace; [done|]. intros _ x w1. apply clear_computed_trace.
Qed.

Lemma step_convert_trace (self : LumpGEM ThermoDB) w :
  trace (step_convert self w).2 = trace w ++ [EvConvert].
Proof.
  unfold step_convert, mbind, M_bind, tell, extern, mret, M_ret. simpl.
  by destruct (convert _ _) as [[e|m] h].
Qed.

Lemma step_solve_trace (self : LumpGEM ThermoDB) w :
  trace (step_solve self w).2 = trace w ++ [EvSolve].
Proof.
  unfold step_solve, mbind, M_bind, tell, extern, mret, M_ret. simpl.
  by destruct (optimize _ _) as [[e|m] h].
Qed.

(** A list of distinct events has no duplicate. *)
Ltac events_NoDup :=
  repeat (apply NoDup_cons; split;
          [rewrite ?elem_of_cons, elem_of_nil; intuition discriminate|]);
  apply NoDup_nil_2.

Lemma step_convert_engine (self : LumpGEM ThermoDB) w :
  step_convert self w =
  match convert (_tfa_model self) (heap w) with
  | (inl e, h) => (inl e, {| heap := h; trace := trace w ++ [EvConvert] |})
  | (inr m, h) => (inr (with_tfa_model m self),
                   {| heap := h; trace := trace w ++ [EvConvert] |})
  end.
Proof.
  unfold step_convert, mbind, M_bind, tell, extern, mret, M_ret. simpl.
  by destruct (convert _ _) as [[e|m] h].
Qed.

Lemma step_solve_engine (self : LumpGEM ThermoDB) w :
  step_solve self w =
  match optimize (_tfa_model self) (heap w) with
  | (inl e, h) => (inl e, {| heap := h; trace := trace w ++ [EvSolve] |})
  | (inr ms, h) => (inr (with_tfa_model ms.1 self, ms.2),
                    {| heap := h; trace := trace w ++ [EvSolve] |})
  end.
Proof.
  unfold step_solve, mbind, M_bind, tell, extern, mret, M_ret. simpl.
  by destruct (optimize _ _) as [[e|m] h].
Qed.

Lemma trace_of {A} (c : M A) w r w' : c w = (r, w') → trace (c w).2 = trace w'.
Proof. by intros ->. Qed.

(** C5, as the code has it: one call of [run_optimisation] runs Prepare,
    ThermoGate, Convert and Solve in that order, each once, each on what
    the previous one left, up to and including the first that raises: it
    returns exactly when all four return, and it raises exactly what one
    of them raises once those before it have returned; the steps it has
    started are then the transitions up to that one.  The steps themselves
    are unguarded: Convert and Solve return exactly when the engine's
    method does, whatever has or has not run before. *)
Theorem C5_transitions_in_order (self : LumpGEM ThermoDB) (w : World) :
  (∀ out w', run_optimisation self w = (inr out, w') ↔ completes self w out w') ∧
  (∀ out w', run_optimisation self w = (inr out, w') →
             trace w' = trace w ++ transitions) ∧
  (∀ e w', run_optimisation self w = (inl e, w') ↔
           ∃ ev, raises_at self w ev e w') ∧
  (∀ ev e w', raises_at self w ev e w' →
              run_optimisation self w = (inl e, w') ∧
              trace w' = trace w ++ up_to ev ∧
              up_to ev `prefix_of` transitions ∧
              last (up_to ev) = Some ev ∧ NoDup (up_to ev)) ∧
  ((∃ self' w', step_convert self w = (inr self', w')) ↔
   ∃ m h, convert (_tfa_model self) (heap w) = (inr m, h)) ∧
  ((∃ out w', step_solve self w = (inr out, w')) ↔
   ∃ ms h, optimize (_tfa_model self) (heap w) = (inr ms, h)).
Proof.
  assert (∀ out w', run_optimisation self w = (inr out, w') ↔
                    completes self w out w') as Hret.
  { intros out w'. unfold run_optimisation, completes. split.
    - intros Hrun. inv_run.
      repeat match goal with u : unit |- _ => destruct u end. eauto 10.
    - intros (self1 & w1 & w2 & self2 & w3 & E1 & E2 & E3 & E4).
      by rewrite (bind_run _ _ _ _ _ E1), (bind_run _ _ _ _ _ E2),
                 (bind_run _ _ _ _ _ E3). }
  assert (∀ ev e w', raises_at self w ev e w' →
                     run_optimisation self w = (inl e, w') ∧
                     trace w' = trace w ++ up_to ev) as Hraise.
  { intros ev e w' Hev. unfold run_optimisation. destruct ev; simpl in Hev.
    - split; [by rewrite (bind_inl _ _ _ _ _ Hev)|].
      by rewrite <- (trace_of _ _ _ _ Hev), step_prepare_trace.
    - destruct Hev as (self1 & w1 & E1 & E2).
      split; [by rewrite (bind_run _ _ _ _ _ E1), (bind_inl _ _ _ _ _ E2)|].
      rewrite <- (trace_of _ _ _ _ E2), step_thermo_gate_trace.
      rewrite <- (trace_of _ _ _ _ E1), step_prepare_trace.
      by rewrite <- app_assoc.
    - destruct Hev as (self1 & w1 & w2 & E1 & E2 & E3).
      split; [by rewrite (bind_run _ _ _ _ _ E1), (bind_run _ _ _ _ _ E2),
                         (bind_inl _ _ _ _ _ E3)|].
      rewrite <- (trace_of _ _ _ _ E3), step_convert_trace.
      rewrite <- (trace_of _ _ _ _ E2), step_thermo_gate_trace.
      rewrite <- (trace_of _ _ _ _ E1), step_prepare_trace.
      by rewrite <- !app_assoc.
    - destruct Hev as (self1 & w1 & w2 & self2 & w3 & E1 & E2 & E3 & E4).
      split; [by rewrite (bind_run _ _ _ _ _ E1), (bind_run _ _ _ _ _ E2),
                         (bind_run _ _ _ _ _ E3)|].
      rewrite <- (trace_of _ _ _ _ E4), step_solve_trace.
      rewrite <- (trace_of _ _ _ _ E3), step_convert_trace.
      rewrite <- (trace_of _ _ _ _ E2), step_thermo_gate_trace.
      rewrite <- (trace_of _ _ _ _ E1), step_prepare_trace.
      by rewrite <- !app_assoc. }
  split_and!.
  - done.
  - intros out w' (self1 & w1 & w2 & self2 & w3 & E1 & E2 & E3 & E4)%Hret.
    rewrite <- (trace_of _ _ _ _ E4), step_solve_trace.
    rewrite <- (trace_of _ _ _ _ E3), step_convert_trace.
    rewrite <- (trace_of _ _ _ _ E2), step_thermo_gate_trace.
    rewrite <- (trace_of _ _ _ _ E1), step_prepare_trace.
    by rewrite <- !app_assoc.
  - intros e w'. split; [|by intros [ev [? _]%Hraise]].
    unfold run_optimisation. intros Hrun.
    destruct (step_prepare self w) as [[e1|self1] w1] eqn:E1.
    { rewrite (bind_inl _ _ _ _ _ E1) in Hrun. exists EvPrepare. simpl. congruence. }
    rewrite (bind_run _ _ _ _ _ E1) in Hrun.
    destruct (step_thermo_gate self1 w1) as [[e2|[]] w2] eqn:E2.
    { rewrite (bind_inl _ _ _ _ _ E2) in Hrun. exists EvThermoGate. simpl.
      exists self1, w1. split; [done|congruence]. }
    rewrite (bind_run _ _ _ _ _ E2) in Hrun.
    destruct (step_convert self1 w2) as [[e3|self2] w3] eqn:E3.
    { rewrite (bind_inl _ _ _ _ _ E3) in Hrun. exists EvConvert. simpl.
      exists self1, w1, w2. split_and!; [done|done|congruence]. }
    rewrite (bind_run _ _ _ _ _ E3) in Hrun.
    exists EvSolve. simpl. exists self1, w1, w2, self2, w3. done.
  - intros ev e w' Hev. destruct (Hraise ev e w' Hev) as [Hrun Htr].
    split_and!; [done|done| | |].
    + destruct ev; [by exists [EvThermoGate; EvConvert; EvSolve]
                   |by exists [EvConvert; EvSolve]|by exists [EvSolve]|done].
    + by destruct ev.
    + destruct ev; unfold up_to, transitions; events_NoDup.
  - rewrite step_convert_engine.
    destruct (convert (_tfa_model self) (heap w)) as [[e|m] h]; split.
    + by intros (? & ? & [=]).
    + by intros (? & ? & [=]).
    + eauto.
    + eauto.
  - rewrite step_solve_engine.
    destruct (optimize (_tfa_model self) (heap w)) as [[e|m] h]; split.
    + by intros (? & ? & [=]).
    + by intros (? & ? & [=]).
    + eauto.
    + eauto.
Qed.

End LumpGEM_facts.

(** ** Further properties of the constructor *)

Section LumpGEM_further.

Context {ThermoDB Solution : Type} {Eng : ThermoEngine ThermoDB Solution}.

Lemma size_list_to_set_bound (l : list loc) :
  (size (list_to_set l : gset loc) ≤ length l)%nat.
Proof.
  induction l as [|x l IH]; simpl; [done|].
  destruct (decide (x ∈ (list_to_set l : gset loc))) as [Hx|Hx].
  - replace ({[x]} ∪ list_to_set l : gset loc) with (list_to_set l : gset loc)
      by set_solver.
    lia.
  - rewrite size_union by set_solver. rewrite size_singleton. lia.
Qed.

(** X11: the non-core reactions are the model reactions that no grouping
    lists and no biomass identifier names; there are as many indicators,
    and as many added constraints, as there are of them, and no more than
    the model has reactions. *)
Theorem X11_problem_size GEM (ids : list string) cs C g path w cm td :
  well_typed (heap w) GEM cs = true →
  growth_admissible (heap w) GEM ids g = true →
  import_matlab_model ".." = inr cm →
  load_thermoDB path = inr td →
  ∃ (self : LumpGEM ThermoDB) w',
    __init__ GEM ids cs C g path w = (inr self, w') ∧
    (∀ l, l ∈ _rncore self ↔
          l ∈ reactions GEM ∧ (l ∉ grouped cs) ∧
          ¬ designated_biomass (heap w) ids l) ∧
    size (_bin_vars self) = size (_rncore self) ∧
    length (added_cons_vars (_tfa_model self)) = size (_rncore self) ∧
    (size (_rncore self) ≤ length (reactions GEM))%nat.
Proof.
  intros Hwt Hadm Himp Hload.
  destruct (init_ok GEM ids cs C g path w cm td) as (self & w' & Hrun & Hc);
    try done.
  exists self, w'. split; [done|].
  destruct (c_heap _ _ _ _ _ _ _ _ _ Hc) as (h1 & (_ & Hdom & _) & _).
  split_and!.
  - apply (constructed_rncore_inputs _ _ _ _ _ _ _ _ _ Hc).
  - rewrite <- size_dom, Hdom. f_equal. apply set_eq. intros l.
    by rewrite elem_of_list_to_set, elem_of_elements.
  - symmetry. apply (Forall2_length _ _ _ (c_constraints _ _ _ _ _ _ _ _ _ Hc)).
  - rewrite (c_rncore _ _ _ _ _ _ _ _ _ Hc). unfold non_core_reactions.
    etrans; [apply size_list_to_set_bound|]. apply length_filter.
Qed.

(** A reaction that existed before the call is, after it, the same but
    for its lower bound. *)
Lemma constructed_reaction_kept w GEM (ids : list string) cs C g path
    (self : LumpGEM ThermoDB) w' :
  constructed w GEM ids cs C g path self w' →
  ∀ l r, reaction_of (heap w) l = Some r →
    ∃ r', reaction_of (heap w') l = Some r' ∧
          rxn_id r' = rxn_id r ∧ metabolites r' = metabolites r ∧
          forward_variable r' = forward_variable r ∧
          reverse_variable r' = reverse_variable r ∧
          thermo r' = thermo r ∧ upper_bound r' = upper_bound r.
Proof.
  intros Hc l r Hr.
  destruct (c_heap _ _ _ _ _ _ _ _ _ Hc)
    as (h1 & (Hsub & _) & Hdone & Hrest & _).
  pose proof (reaction_of_subseteq _ _ _ _ Hsub Hr) as Hr1.
  destruct (decide (l ∈ elements (_rBBB self))) as [Hl|Hl].
  - destruct (Hdone l Hl) as (r0 & Hr0 & Hl').
    assert (r0 = r) as -> by congruence.
    exists (with_lower_bound g r). split; [by apply reaction_of_Some|done].
  - exists r. split; [|done]. by rewrite (Hrest l Hl).
Qed.

Lemma constructed_variable_kept w GEM (ids : list string) cs C g path
    (self : LumpGEM ThermoDB) w' :
  constructed w GEM ids cs C g path self w' →
  ∀ v, is_variable (heap w) v = true → is_variable (heap w') v = true.
Proof.
  intros Hc v Hv.
  destruct (c_heap _ _ _ _ _ _ _ _ _ Hc) as (h1 & (Hsub & _) & Hb).
  eauto using bounds_set_variable, is_variable_subseteq.
Qed.

Lemma constructed_well_typed w GEM (ids : list string) cs C g path
    (self : LumpGEM ThermoDB) w' :
  constructed w GEM ids cs C g path self w' →
  well_typed (heap w) GEM cs = true → well_typed (heap w') GEM cs = true.
Proof.
  intros Hc. unfold well_typed. rewrite !andb_true_iff, !forallb_forall.
  intros [Hr Hcs]. split.
  - intros l Hl.
    destruct (proj1 (has_flux_variables_true _ _) (Hr l Hl)) as (r & Hr0 & Hf & Hb).
    destruct (constructed_reaction_kept _ _ _ _ _ _ _ _ _ Hc l r Hr0)
      as (r' & Hr' & _ & _ & Ef & Eb & _).
    apply has_flux_variables_true. exists r'. rewrite Ef, Eb.
    eauto using constructed_variable_kept.
  - intros sub Hsub. specialize (Hcs sub Hsub).
    rewrite forallb_forall in *. intros l Hl.
    destruct (proj1 (is_reaction_true _ _) (Hcs l Hl)) as [r Hr0].
    destruct (constructed_reaction_kept _ _ _ _ _ _ _ _ _ Hc l r Hr0)
      as (r' & Hr' & _).
    apply is_reaction_true. eauto.
Qed.

Lemma constructed_growth_admissible w GEM (ids : list string) cs C g path
    (self : LumpGEM ThermoDB) w' :
  constructed w GEM ids cs C g path self w' →
  well_typed (heap w) GEM cs = true →
  growth_admissible (heap w) GEM ids g = true →
  growth_admissible (heap w') GEM ids g = true.
Proof.
  intros Hc Hwt Hadm. unfold growth_admissible. apply forallb_forall.
  intros l Hl%list_elem_of_In.
  destruct (proj1 (has_flux_variables_true _ _)
              (well_typed_reactions _ _ _ _ Hwt Hl)) as (r & Hr & _).
  destruct (constructed_reaction_kept _ _ _ _ _ _ _ _ _ Hc l r Hr)
    as (r' & -> & Eid & _ & _ & _ & _ & Eub).
  rewrite Eid, Eub. case_bool_decide as Hid; [|done].
  eauto using growth_admissible_reaction.
Qed.

(** X10: constructing a second instance from the same arguments, in the
    world the first construction left, returns and gives the same four
    sets: the constructor disturbs nothing that the partition reads. *)
Theorem X10_partition_idempotent GEM (ids : list string) cs C g path w cm td :
  well_typed (heap w) GEM cs = true →
  growth_admissible (heap w) GEM ids g = true →
  import_matlab_model ".." = inr cm →
  load_thermoDB path = inr td →
  ∃ (self : LumpGEM ThermoDB) w' self2 w'',
    __init__ GEM ids cs C g path w = (inr self, w') ∧
    __init__ GEM ids cs C g path w' = (inr self2, w'') ∧
    _rBBB self2 = _rBBB self ∧
    _rcore self2 = _rcore self ∧
    _mcore self2 = _mcore self ∧
    _rncore self2 = _rncore self.
Proof.
  intros Hwt Hadm Himp Hload.
  destruct (init_ok GEM ids cs C g path w cm td) as (self & w' & Hrun & Hc);
    try done.
  pose proof (constructed_well_typed _ _ _ _ _ _ _ _ _ Hc Hwt) as Hwt'.
  pose proof (constructed_growth_admissible _ _ _ _ _ _ _ _ _ Hc Hwt Hadm) as Hadm'.
  destruct (init_ok GEM ids cs C g path w' cm td) as (self2 & w'' & Hrun2 & Hc2);
    try done.
  exists self, w', self2, w''. split; [done|]. split; [done|].
  pose proof (constructed_reaction_kept _ _ _ _ _ _ _ _ _ Hc) as Hkept.
  assert (_rBBB self2 = _rBBB self) as E1.
  { apply set_eq. intros l.
    rewrite (c_rBBB _ _ _ _ _ _ _ _ _ Hc), (c_rBBB _ _ _ _ _ _ _ _ _ Hc2).
    split; intros (Hl & r & Hr & Hid); (split; [done|]).
    - destruct (proj1 (has_flux_variables_true _ _)
                  (well_typed_reactions _ _ _ _ Hwt Hl)) as (r0 & Hr0 & _).
      destruct (Hkept l r0 Hr0) as (r' & Hr' & Eid & _).
      exists r0. split; [done|]. congruence.
    - destruct (Hkept l r Hr) as (r' & Hr' & Eid & _).
      exists r'. split; [done|]. congruence. }
  assert (_rcore self2 = _rcore self) as E2
    by by rewrite (c_rcore _ _ _ _ _ _ _ _ _ Hc), (c_rcore _ _ _ _ _ _ _ _ _ Hc2).
  split_and!; [done|done| |].
  - apply set_eq. intros m.
    rewrite (c_mcore _ _ _ _ _ _ _ _ _ Hc), (c_mcore _ _ _ _ _ _ _ _ _ Hc2), E2.
    assert (∀ l, l ∈ _rcore self →
                 metabolites_of (heap w') l = metabolites_of (heap w) l) as Hmet.
    { intros l Hl. rewrite (c_rcore _ _ _ _ _ _ _ _ _ Hc) in Hl.
      apply elem_of_grouped in Hl as (sub & Hsub & Hl).
      unfold well_typed in Hwt. apply andb_true_iff in Hwt as [_ Hcs].
      rewrite forallb_forall in Hcs.
      specialize (Hcs sub (proj1 (list_elem_of_In _ _) Hsub)).
      rewrite forallb_forall in Hcs.
      destruct (proj1 (is_reaction_true _ _)
                  (Hcs l (proj1 (list_elem_of_In _ _) Hl))) as [r Hr].
      destruct (Hkept l r Hr) as (r' & Hr' & _ & Emet & _).
      unfold metabolites_of. by rewrite Hr, Hr', Emet. }
    split; intros (l & Hl & Hm); exists l; (split; [done|]).
    + by rewrite <- Hmet.
    + by rewrite Hmet.
  - by rewrite (c_rncore _ _ _ _ _ _ _ _ _ Hc), (c_rncore _ _ _ _ _ _ _ _ _ Hc2),
               E1, E2.
Qed.

(** *** Constructions that raise *)












(** X4: with partition inputs that are reaction objects, an exception of
    the model importer, or of the database loader after it, comes out of
    the constructor as it is, and the world is left as it was: no
    indicator is created and no bound is set. *)
Theorem X4_loader_error_propagates GEM (ids : list string) cs C g path w e :
  forallb (is_reaction (heap w)) (reactions GEM) = true →
  forallb (forallb (is_reaction (heap w))) cs = true →
  (import_matlab_model ".." = inl e →
   __init__ (ThermoDB := ThermoDB) GEM ids cs C g path w = (inl e, w)) ∧
  (∀ cm, import_matlab_model ".." = inr cm → load_thermoDB path = inl e →
   __init__ (ThermoDB := ThermoDB) GEM ids cs C g path w = (inl e, w)).
Proof.
  intros Hrxns Hcs.
  destruct (biomass_reactions_total GEM ids w) as [rBBB HrBBB].
  { apply Forall_forall. intros x Hx. rewrite forallb_forall in Hrxns.
    apply Hrxns. by apply list_elem_of_In. }
  destruct (core_sets_total cs w Hcs) as [cores Hcores].
  split.
  - intros Himp. unfold __init__.
    rewrite (bind_run _ _ _ _ _ HrBBB), (bind_run _ _ _ _ _ Hcores). cbv zeta.
    apply bind_inl. by rewrite Himp.
  - intros cm Himp Hload. unfold __init__.
    rewrite (bind_run _ _ _ _ _ HrBBB), (bind_run _ _ _ _ _ Hcores). cbv zeta.
    rewrite Himp, (bind_run _ _ w cm w) by done.
    apply bind_inl. unfold _apply_thermo_constraints.
    apply bind_inl. by rewrite Hload.
Qed.

Lemma forallb_false {A} (f : A → bool) (l : list A) :
  forallb f l = false → ∃ x, x ∈ l ∧ f x = false.
Proof.
  induction l as [|x l IH]; simpl; [done|].
  destruct (f x) eqn:E; simpl.
  - intros (y & Hy & Hf)%IH. exists y. split; [by right|done].
  - intros _. exists x. split; [by left|done].
Qed.

(** The loop of lines 93-94 raises [ValueError] when the growth rate
    exceeds the upper bound of one of the reactions. *)
Lemma bounds_loop_raises g xs w :
  (∀ x, x ∈ xs → is_reaction (heap w) x = true) →
  (∃ x r, x ∈ xs ∧ reaction_of (heap w) x = Some r ∧
          Qle_bool g (upper_bound r) = false) →
  ∃ w', foldM (λ _ bio_rxn, set_lower_bound g bio_rxn) tt xs w
        = (inl ValueError, w') ∧ trace w' = trace w.
Proof.
  revert w. induction xs as [|y xs IH]; intros w Hrx (x & r & Hx & Hr & Hle).
  { by apply elem_of_nil in Hx. }
  destruct (proj1 (is_reaction_true _ _) (Hrx y ltac:(by left))) as [ry Hry].
  simpl. unfold mbind, M_bind.
  rewrite (set_lower_bound_reaction g y w ry Hry).
  destruct (Qle_bool g (upper_bound ry)) eqn:E; [|by eauto].
  apply reaction_of_Some in Hry as Hy.
  assert (x ≠ y) as Hne by (intros ->; congruence).
  destruct (IH {| heap := bound_heap g y ry (heap w); trace := trace w |})
    as (w' & Hrun & Htr); [| |by eauto].
  - intros z Hz. simpl. apply is_reaction_true.
    destruct (decide (z = y)) as [->|Hzy].
    + eexists. apply reaction_of_Some. by apply bound_heap_self.
    + rewrite bound_heap_reaction by done.
      apply is_reaction_true, Hrx. by right.
  - exists x, r. simpl. split_and!; [set_solver| |done].
    by rewrite bound_heap_reaction.
Qed.

(** X3: on well-typed inputs, with loaders that return, the constructor
    returns exactly when the growth rate does not exceed the upper bound
    of any biomass reaction; when it exceeds one, the constructor raises
    [ValueError], from the assignment of line 94, and no instance is
    built. *)
Theorem X3_growth_rate_above_upper_bound GEM (ids : list string) cs C g path
    w cm td :
  well_typed (heap w) GEM cs = true →
  import_matlab_model ".." = inr cm →
  load_thermoDB path = inr td →
  ((∃ self w', __init__ GEM ids cs C g path w = (inr self, w')) ↔
   growth_admissible (heap w) GEM ids g = true) ∧
  (growth_admissible (heap w) GEM ids g = false →
   ∃ w', __init__ GEM ids cs C g path w = (inl ValueError, w') ∧
         trace w' = trace w).
Proof.
  intros Hwt Himp Hload.
  assert (growth_admissible (heap w) GEM ids g = false →
          ∃ w', __init__ GEM ids cs C g path w = (inl ValueError, w') ∧
                trace w' = trace w) as Hraise.
  { intros Hadm.
    destruct (init_reaches_constraints GEM ids cs C g path w cm td Hwt Himp Hload)
      as (self0 & w1 & -> & Hg & Hsub & Htr1 & Hbio & Hnc).
    unfold _generate_constraints.
    destruct (uptake_loop_total self0 w1 Hnc) as [tfa Hrun1].
    rewrite (bind_run _ _ _ _ _ Hrun1), Hg.
    apply forallb_false in Hadm as (x & Hx & Hbad).
    destruct (proj1 (has_flux_variables_true _ _)
                (well_typed_reactions _ _ _ _ Hwt Hx)) as (r & Hr & _).
    rewrite Hr in Hbad. case_bool_decide as Hid; [|done].
    destruct (bounds_loop_raises g (elements (_rBBB self0)) w1)
      as (w' & Hrun & Htr).
    - intros y (_ & ry & Hry & _)%elem_of_elements%Hbio.
      apply is_reaction_true. eauto using reaction_of_subseteq.
    - exists x, r. split_and!; [|by eapply reaction_of_subseteq|done].
      apply elem_of_elements, Hbio. eauto.
    - exists w'. split; [by apply bind_inl|]. congruence. }
  split; [|done]. split.
  - intros (self & w' & Hrun).
    destruct (growth_admissible (heap w) GEM ids g) eqn:Hadm; [done|].
    destruct (Hraise eq_refl) as (w'' & Hrun' & _). congruence.
  - intros Hadm. by eapply init_total.
Qed.

(** ** Further properties of gating and of the run *)

Lemma step_thermo_gate_inr (self : LumpGEM ThermoDB) w u w' :
  step_thermo_gate self w = (inr u, w') →
  trace w' = trace w ++ [EvThermoGate] ∧
  gated (heap w) (heap w') (elements (_rncore self)).
Proof.
  unfold step_thermo_gate. rewrite (bind_run _ _ _ _ _ (tell_run EvThermoGate w)).
  intros Hrun. by apply gate_loop_inr in Hrun as [? ?].
Qed.

(** A gating loop that returned found an annotation on every reaction. *)
Lemma gate_loop_annotated xs w u w' :
  foldM (λ _ ncrxn, clear_computed ncrxn) tt xs w = (inr u, w') →
  forallb (annotated (heap w)) xs = true.
Proof.
  intros Hrun.
  cut (Forall (λ x, annotated (heap w) x = true) xs).
  { rewrite Forall_forall, forallb_forall. intros Hall x Hx.
    by apply Hall, list_elem_of_In. }
  revert Hrun.
  apply (foldM_ind _ (λ pre _ w1,
    (∀ l, thermo_ref (heap w1) l = thermo_ref (heap w) l) ∧
    (∀ d m1, heap w1 !! d = Some (ODict m1) → ∃ m, heap w !! d = Some (ODict m)) ∧
    Forall (λ x, annotated (heap w) x = true) pre) xs tt w u w').
  - intros pre x post [] w1 [] w2 _ (Href & Hdict & Hall) Hstep.
    apply clear_computed_inr in Hstep as (d & m1 & Hd & Hm1 & ->). simpl.
    split_and!.
    + intros l. rewrite <- Href. unfold thermo_ref, reaction_of.
      destruct (decide (l = d)) as [->|Hne].
      * by rewrite lookup_insert_eq, Hm1.
      * by rewrite lookup_insert_ne.
    + intros d0 m0. destruct (decide (d0 = d)) as [->|Hne].
      * intros _. eauto.
      * rewrite lookup_insert_ne by done. eauto.
    + apply Forall_app. split; [done|]. constructor; [|constructor].
      destruct (Hdict d m1 Hm1) as [m Hm].
      apply annotated_true. exists d, m. by rewrite <- Href.
  - split_and!; [done|by eauto|constructor].
Qed.

(** X6: a gating step that returns has written the entry ['computed'] of
    annotation dictionaries and nothing else: every reaction object keeps
    all its attributes, every object that is not a dictionary is as it
    was, every dictionary keeps all its other entries, and no object is
    created. *)
Theorem X6_gating_writes_computed_only (self : LumpGEM ThermoDB) w w' :
  step_thermo_gate self w = (inr tt, w') →
  (∀ l, reaction_of (heap w') l = reaction_of (heap w) l) ∧
  (∀ l o, heap w !! l = Some o → (∀ m, o ≠ ODict m) → heap w' !! l = Some o) ∧
  (∀ d m, heap w !! d = Some (ODict m) →
     ∃ m', heap w' !! d = Some (ODict m') ∧
           ∀ k, k ≠ "computed" → m' !! k = m !! k) ∧
  (∀ l, heap w !! l = None → heap w' !! l = None).
Proof.
  intros [_ Hg]%step_thermo_gate_inr.
  split_and!.
  - intros l. by eapply gated_reaction_of.
  - intros l o Hl Ho. destruct Hg as [Hin Hout].
    destruct (classic_annotation (heap w) (elements (_rncore self)) l) as [Ha|Ha].
    + destruct (Hin l Ha) as (m & Hm & _). rewrite Hm in Hl.
      injection Hl as <-. by destruct (Ho m).
    + by rewrite (Hout l Ha).
  - intros d m Hm. destruct Hg as [Hin Hout].
    destruct (classic_annotation (heap w) (elements (_rncore self)) d) as [Ha|Ha].
    + destruct (Hin d Ha) as (m0 & Hm0 & Hm').
      assert (m0 = m) as -> by congruence.
      eexists. split; [done|]. intros k Hk. by rewrite lookup_insert_ne.
    + exists m. split; [|done]. by rewrite (Hout d Ha).
  - intros l Hl. destruct Hg as [Hin Hout].
    destruct (classic_annotation (heap w) (elements (_rncore self)) l) as [Ha|Ha].
    + destruct (Hin l Ha) as (m & Hm & _). congruence.
    + by rewrite (Hout l Ha).
Qed.

(** X7: gating is idempotent: after a gating step that returned, a second
    one returns and leaves every object as the first left it. *)
Theorem X7_gating_idempotent (self : LumpGEM ThermoDB) w w1 :
  step_thermo_gate self w = (inr tt, w1) →
  step_thermo_gate self w1 =
  (inr tt, {| heap := heap w1; trace := trace w1 ++ [EvThermoGate] |}).
Proof.
  intros Hrun.
  pose proof (step_thermo_gate_inr _ _ _ _ Hrun) as [_ Hg].
  unfold step_thermo_gate in Hrun.
  rewrite (bind_run _ _ _ _ _ (tell_run EvThermoGate w)) in Hrun.
  apply gate_loop_annotated in Hrun. simpl in Hrun.
  assert (∀ l, thermo_ref (heap w1) l = thermo_ref (heap w) l) as Href
    by (intros l; by eapply gated_thermo_ref).
  unfold step_thermo_gate.
  rewrite (bind_run _ _ _ _ _ (tell_run EvThermoGate w1)).
  set (w0 := {| heap := heap w1; trace := trace w1 ++ [EvThermoGate] |}).
  destruct (gate_loop_total (elements (_rncore self)) w0) as [w2 Hrun2].
  { apply forallb_forall. intros l Hl. rewrite forallb_forall in Hrun.
    destruct (proj1 (annotated_true _ _) (Hrun l Hl)) as (d & m & Hd & Hm).
    apply annotated_true. simpl. rewrite Href.
    destruct Hg as [Hin _]. destruct (Hin d) as (m' & _ & Hm').
    { exists l. split; [by apply list_elem_of_In|done]. }
    eauto. }
  rewrite Hrun2. f_equal.
  apply gate_loop_inr in Hrun2 as [Htr Hg2]. simpl in Htr, Hg2.
  destruct w2 as [h2 t2]. simpl in *. subst t2. unfold w0. f_equal.
  apply map_eq. intros d. destruct Hg as [Hin Hout], Hg2 as [Hin2 Hout2].
  destruct (classic_annotation (heap w1) (elements (_rncore self)) d) as [Ha|Ha].
  - destruct (Hin2 d Ha) as (m1 & Hm1 & ->).
    destruct Ha as (l & Hl & Hd). rewrite Href in Hd.
    destruct (Hin d) as (m & _ & Hm'); [by exists l|].
    rewrite Hm1 in Hm'. injection Hm' as ->. by rewrite Hm1, insert_insert_eq.
  - by apply Hout2.
Qed.

Lemma extern_run {A} (f : gmap loc Obj → (Exn + A) * gmap loc Obj) w r h :
  f (heap w) = (r, h) → extern f w = (r, {| heap := h; trace := trace w |}).
Proof. unfold extern. by intros ->. Qed.

Lemma step_prepare_run (self : LumpGEM ThermoDB) w m h :
  prepare (_tfa_model self) (heap w) = (inr m, h) →
  step_prepare self w =
  (inr (with_tfa_model m self), {| heap := h; trace := trace w ++ [EvPrepare] |}).
Proof.
  intros Hp. unfold step_prepare.
  rewrite (bind_run _ _ _ _ _ (tell_run EvPrepare w)).
  by rewrite (bind_run _ _ _ _ _
                (extern_run _ {| heap := heap w; trace := trace w ++ [EvPrepare] |}
                   _ _ Hp)).
Qed.

Lemma step_convert_outcome (self : LumpGEM ThermoDB) w r h :
  convert (_tfa_model self) (heap w) = (r, h) →
  step_convert self w =
  (match r with inl e => inl e | inr m => inr (with_tfa_model m self) end,
   {| heap := h; trace := trace w ++ [EvConvert] |}).
Proof.
  intros Hc. unfold step_convert, mbind, M_bind, tell, extern, mret, M_ret.
  simpl. rewrite Hc. by destruct r.
Qed.

Lemma step_solve_outcome (self : LumpGEM ThermoDB) w r h :
  optimize (_tfa_model self) (heap w) = (r, h) →
  step_solve self w =
  (match r with
   | inl e => inl e
   | inr ms => inr (with_tfa_model ms.1 self, ms.2)
   end,
   {| heap := h; trace := trace w ++ [EvSolve] |}).
Proof.
  intros Ho. unfold step_solve, mbind, M_bind, tell, extern, mret, M_ret.
  simpl. rewrite Ho. by destruct r.
Qed.

(** X8: when [prepare] returns and leaves every non-core reaction with an
    annotation, gating returns and clears the flag of every non-core
    reaction, [convert] receives the model [prepare] returned and the gated
    heap, [optimize] receives what [convert] returned, and the run hands
    back the solution of [optimize] as it is; an exception of [convert] or
    of [optimize] comes out of the run as it is, and nothing is called a
    second time. *)
Theorem X8_run_passes_engine_results (self : LumpGEM ThermoDB) w m1 h1 :
  prepare (_tfa_model self) (heap w) = (inr m1, h1) →
  forallb (annotated h1) (elements (_rncore self)) = true →
  ∃ h2,
    (∀ l, l ∈ _rncore self → computed_flag h2 l = Some (PyBool false)) ∧
    (∀ l, reaction_of h2 l = reaction_of h1 l) ∧
    (∀ m2 h3 m3 sol h4,
       convert m1 h2 = (inr m2, h3) → optimize m2 h3 = (inr (m3, sol), h4) →
       run_optimisation self w =
       (inr (with_tfa_model m3 self, sol),
        {| heap := h4; trace := trace w ++ transitions |})) ∧
    (∀ e h3,
       convert m1 h2 = (inl e, h3) →
       run_optimisation self w =
       (inl e, {| heap := h3;
                  trace := trace w ++ [EvPrepare; EvThermoGate; EvConvert] |})) ∧
    (∀ m2 h3 e h4,
       convert m1 h2 = (inr m2, h3) → optimize m2 h3 = (inl e, h4) →
       run_optimisation self w =
       (inl e, {| heap := h4; trace := trace w ++ transitions |})).
Proof.
  intros Hp Hann.
  pose proof (step_prepare_run self w m1 h1 Hp) as Hprep.
  set (w1 := {| heap := h1; trace := trace w ++ [EvPrepare] |}) in *.
  set (self1 := with_tfa_model m1 self) in *.
  assert (∃ w2, step_thermo_gate self1 w1 = (inr tt, w2)) as [w2 Hgate].
  { unfold step_thermo_gate.
    rewrite (bind_run _ _ _ _ _ (tell_run EvThermoGate w1)).
    by apply gate_loop_total. }
  pose proof (step_thermo_gate_inr _ _ _ _ Hgate) as [Htr Hg].
  simpl in Htr, Hg. destruct w2 as [h2 t2]. simpl in Htr, Hg. subst t2.
  set (w2 := {| heap := h2; trace := (trace w ++ [EvPrepare]) ++ [EvThermoGate] |})
    in *.
  assert (∀ l, thermo_ref h2 l = thermo_ref h1 l) as Href
    by (intros l; by eapply gated_thermo_ref).
  exists h2. split_and!.
  - intros l Hl. rewrite forallb_forall in Hann.
    destruct (proj1 (annotated_true _ _)
                (Hann l (proj1 (list_elem_of_In _ _)
                           (proj2 (elem_of_elements _ _) Hl))))
      as (d & m & Hd & Hm).
    destruct Hg as [Hin _]. destruct (Hin d) as (m' & _ & Hm').
    { exists l. split; [by apply elem_of_elements|done]. }
    unfold computed_flag, thermo_dict. rewrite Href, Hd. simpl. rewrite Hm'. simpl.
    by rewrite lookup_insert_eq.
  - intros l. by eapply gated_reaction_of.
  - intros m2 h3 m3 sol h4 Hc Ho. unfold run_optimisation.
    rewrite (bind_run _ _ _ _ _ Hprep), (bind_run _ _ _ _ _ Hgate).
    rewrite (bind_run _ _ _ _ _ (step_convert_outcome self1 w2 (inr m2) h3 Hc)).
    rewrite (step_solve_outcome (with_tfa_model m2 self1)
               {| heap := h3; trace := trace w2 ++ [EvConvert] |}
               (inr (m3, sol)) h4 Ho).
    unfold transitions. simpl. by rewrite <- !app_assoc.
  - intros e h3 Hc. unfold run_optimisation.
    rewrite (bind_run _ _ _ _ _ Hprep), (bind_run _ _ _ _ _ Hgate).
    rewrite (bind_inl _ _ _ _ _ (step_convert_outcome self1 w2 (inl e) h3 Hc)).
    simpl. by rewrite <- !app_assoc.
  - intros m2 h3 e h4 Hc Ho. unfold run_optimisation.
    rewrite (bind_run _ _ _ _ _ Hprep), (bind_run _ _ _ _ _ Hgate).
    rewrite (bind_run _ _ _ _ _ (step_convert_outcome self1 w2 (inr m2) h3 Hc)).
    rewrite (step_solve_outcome (with_tfa_model m2 self1)
               {| heap := h3; trace := trace w2 ++ [EvConvert] |}
               (inl e) h4 Ho).
    unfold transitions. simpl. by rewrite <- !app_assoc.
Qed.

(** X9: when [prepare] returns and leaves the non-core reactions, of
    which there is at least one, without the [thermo] attribute, the run
    raises [AttributeError] at the gating loop: nothing is gated, and
    [convert] and [optimize] are not called. *)
Theorem X9_unannotated_stops_run (self : LumpGEM ThermoDB) w m1 h1 :
  prepare (_tfa_model self) (heap w) = (inr m1, h1) →
  _rncore self ≠ ∅ →
  forallb (unannotated h1) (elements (_rncore self)) = true →
  run_optimisation self w =
  (inl AttributeError,
   {| heap := h1; trace := trace w ++ [EvPrepare; EvThermoGate] |}).
Proof.
  intros Hp Hne Hun. unfold run_optimisation.
  rewrite (bind_run _ _ _ _ _ (step_prepare_run self w m1 h1 Hp)).
  apply bind_inl. unfold step_thermo_gate.
  rewrite (bind_run _ _ _ _ _ (tell_run EvThermoGate _)). simpl.
  rewrite <- app_assoc. simpl.
  destruct (elements (_rncore self)) as [|x xs] eqn:Hel.
  { by apply elements_empty_inv, leibniz_equiv in Hel. }
  simpl in Hun. apply andb_true_iff in Hun as [Hx _].
  simpl. apply bind_inl. unfold clear_computed, unannotated in *.
  destruct (reaction_of h1 x) as [r|] eqn:Hr; [|done].
  rewrite (bind_run _ _ _ r _) by (by apply get_reaction_run).
  by destruct (thermo r).
Qed.

End LumpGEM_further.

(** ** The toy network, end to end *)

Import StandIn.

Example toy_construction :
  (__init__ toy_GEM ["B1"] [[R1]] toy_uptake toy_growth toy_path toy_world).1
  = inr toy_instance.
Proof. vm_compute. reflexivity. Qed.

(** The growth rate becomes the lower bound of [B1], and of its forward
    variable; its reverse variable is closed. *)
Example toy_growth_bound :
  ∃ self w',
    __init__ toy_GEM ["B1"] [[R1]] toy_uptake toy_growth toy_path toy_world
      = (inr self, w') ∧
    lower_bound <$> reaction_of (heap w') B1 = Some toy_growth ∧
    var_bounds <$> variable_of (heap w') 15%positive
      = Some (Some toy_growth, Some 1000%Q) ∧
    var_bounds <$> variable_of (heap w') 16%positive
      = Some (Some 0%Q, Some 0%Q).
Proof. eexists _, _. split_and!; vm_compute; reflexivity. Qed.

(** With a limit of 0 the symbolic layer drops the product by the
    indicator: the constraint is [f + b <= 0]. *)
Example uptake_limit_zero (f b y : loc) :
  uptake_constraint f b y 0 =
  {| expression := EAdd (EVar f) (EVar b); lb := None; ub := Some 0%Q |}.
Proof. reflexivity. Qed.

(** A metabolite listed among the model's reactions has an [id] and
    passes line 39; the constructor raises at line 87, after the indicators
    were created. *)
Example metabolite_in_model :
  ∃ w',
    __init__ {| reactions := [R1; 21%positive] |} [] [] toy_uptake toy_growth
      toy_path toy_world = (inl AttributeError, w') ∧
    size (dom (heap w')) = (size (dom (heap toy_world)) + 2)%nat.
Proof. eexists. split; vm_compute; reflexivity. Qed.

(** A metabolite that a biomass identifier names passes the whole
    constructor: the assignment of line 94 gives it an attribute
    [lower_bound]. *)
Example metabolite_as_biomass :
  ∃ self w',
    __init__ {| reactions := [R1; 21%positive] |} ["m1"] [[R1]] toy_uptake
      toy_growth toy_path toy_world = (inr self, w') ∧
    _rBBB self = {[21%positive]} ∧
    heap w' !! 21%positive
      = Some (OMetabolite {| met_id := "m1";
                             met_dict := {["lower_bound" := PyFloat toy_growth]} |}).
Proof. eexists _, _. split_and!; vm_compute; reflexivity. Qed.

(** A reaction without a model in the model's list: its flux variables are
    not variable objects, and building its constraint raises. *)
Example detached_reaction :
  (__init__ bare_GEM [] [] toy_uptake toy_growth toy_path detached_world).1
  = inl TypeError.
Proof. vm_compute. reflexivity. Qed.

Example toy_optimisation :
  ∃ out w',
    run_optimisation toy_instance toy_world = (inr out, w') ∧
    trace w' = transitions ∧
    computed_flag (heap w') R2 = Some (PyBool false) ∧
    computed_flag (heap w') R1 = Some (PyBool true).
Proof. eexists _, _. split_and!; vm_compute; reflexivity. Qed.

(** Gating needs the annotation: a reaction without [thermo] makes the
    loop raise. *)
Example gate_unannotated :
  clear_computed R9 toy_world = (inl AttributeError, toy_world).
Proof. reflexivity. Qed.

(** ** The statements at the toy network *)

(** C1 at the toy network: the one constraint is that of [R2]. *)
Lemma C1_witness :
  well_typed (heap toy_world) toy_GEM [[R1]] = true ∧
  growth_admissible (heap toy_world) toy_GEM ["B1"] toy_growth = true ∧
  import_matlab_model ".." = inr {| reactions := [] |} ∧
  load_thermoDB toy_path = inr toy_path ∧
  ∃ self w',
    __init__ toy_GEM ["B1"] [[R1]] toy_uptake toy_growth toy_path toy_world
      = (inr self, w') ∧
    _C_uptake self = toy_uptake ∧
    (∀ l, l ∈ _rncore self ↔
          l ∈ reactions toy_GEM ∧ (l ∉ grouped [[R1]]) ∧
          ¬ designated_biomass (heap toy_world) ["B1"] l) ∧
    Forall2 (uptake_constraint_of (heap w') (_bin_vars self) toy_uptake)
            (elements (_rncore self)) (added_cons_vars (_tfa_model self)) ∧
    ∀ l, l ∈ reactions toy_GEM → l ∉ grouped [[R1]] →
         ¬ designated_biomass (heap toy_world) ["B1"] l →
      ∃ r y c, reaction_of (heap toy_world) l = Some r ∧
               reaction_of (heap w') l = Some r ∧
               _bin_vars self !! l = Some y ∧
               c ∈ added_cons_vars (_tfa_model self) ∧
               c = uptake_constraint (forward_variable r) (reverse_variable r) y
                     toy_uptake ∧
               (¬ (toy_uptake == 0)%Q →
                c = spec_uptake_constraint
                      (forward_variable r) (reverse_variable r) y toy_uptake) ∧
               (∀ ρ : loc → Q,
                  satisfies ρ c ↔
                  (ρ (forward_variable r) + ρ (reverse_variable r)
                   + toy_uptake * ρ y <= toy_uptake)%Q) ∧
               uptake_semantics (forward_variable r) (reverse_variable r) y
                 toy_uptake c.
Proof.
  split_and!; [reflexivity..|].
  exact (C1_carbon_uptake_constraints toy_GEM ["B1"] [[R1]] toy_uptake toy_growth
           toy_path toy_world _ _ eq_refl eq_refl eq_refl eq_refl).
Defined.

(** With the reaction [R9], which the model does not have, in a core
    grouping, the three sets do not partition the model's reactions. *)
Lemma C2_counterexample :
  ∃ self w',
    __init__ toy_GEM ["B1"] [[R1; R9]] toy_uptake toy_growth toy_path toy_world
      = (inr self, w') ∧
    ¬ exact_partition toy_GEM self.
Proof.
  eexists _, _. split; [vm_compute; reflexivity|].
  intros [Hu _].
  apply (f_equal (λ s : gset loc, bool_decide (R9 ∈ s))) in Hu.
  vm_compute in Hu. discriminate Hu.
Qed.

(** C2 at the toy network. *)
Lemma C2_witness :
  well_typed (heap toy_world) toy_GEM [[R1]] = true ∧
  growth_admissible (heap toy_world) toy_GEM ["B1"] toy_growth = true ∧
  import_matlab_model ".." = inr {| reactions := [] |} ∧
  load_thermoDB toy_path = inr toy_path ∧
  ∃ self w',
    __init__ toy_GEM ["B1"] [[R1]] toy_uptake toy_growth toy_path toy_world
      = (inr self, w') ∧
    list_to_set (reactions toy_GEM) ⊆ _rBBB self ∪ _rcore self ∪ _rncore self ∧
    _rncore self ## _rBBB self ∧
    _rncore self ## _rcore self ∧
    (exact_partition toy_GEM self ↔
     ∀ l, l ∈ grouped [[R1]] →
          l ∈ reactions toy_GEM ∧ ¬ designated_biomass (heap toy_world) ["B1"] l).
Proof.
  split_and!; [reflexivity..|].
  exact (C2_partition_covers toy_GEM ["B1"] [[R1]] toy_uptake toy_growth
           toy_path toy_world _ _ eq_refl eq_refl eq_refl eq_refl).
Defined.

(** With the biomass reaction [B1] listed in a core grouping, [B1] is a
    core reaction too: biomass does not take precedence. *)
Lemma C3_counterexample :
  ∃ self w',
    __init__ toy_GEM ["B1"] [[R1; B1]] toy_uptake toy_growth toy_path toy_world
      = (inr self, w') ∧
    ¬ biomass_precedence (heap toy_world) toy_GEM ["B1"] [[R1; B1]] self.
Proof.
  eexists _, _. split; [vm_compute; reflexivity|].
  intros Hp. destruct (Hp B1) as [_ Hout].
  - unfold toy_GEM; simpl. set_solver.
  - eexists. split; [reflexivity|]. simpl. set_solver.
  - apply elem_of_grouped. exists [R1; B1]. set_solver.
  - apply Hout. vm_compute. reflexivity.
Qed.

(** C3 at the toy network with [B1] listed in the core grouping. *)
Lemma C3_witness :
  well_typed (heap toy_world) toy_GEM [[R1; B1]] = true ∧
  growth_admissible (heap toy_world) toy_GEM ["B1"] toy_growth = true ∧
  import_matlab_model ".." = inr {| reactions := [] |} ∧
  load_thermoDB toy_path = inr toy_path ∧
  ∃ self w',
    __init__ toy_GEM ["B1"] [[R1; B1]] toy_uptake toy_growth toy_path toy_world
      = (inr self, w') ∧
    ∀ l, l ∈ reactions toy_GEM → designated_biomass (heap toy_world) ["B1"] l →
         l ∈ grouped [[R1; B1]] →
         l ∈ _rBBB self ∧ l ∈ _rcore self ∧ l ∉ _rncore self.
Proof.
  split_and!; [reflexivity..|].
  exact (C3_overlap_in_both toy_GEM ["B1"] [[R1; B1]] toy_uptake toy_growth
           toy_path toy_world _ _ eq_refl eq_refl eq_refl eq_refl).
Defined.

(** The engine of the toy instance holds the importer's model, which is
    not the model given to the constructor. *)
Lemma C4_counterexample :
  ∃ self w',
    __init__ toy_GEM ["B1"] [[R1]] toy_uptake toy_growth toy_path toy_world
      = (inr self, w') ∧
    _GEM self = toy_GEM ∧
    ¬ base_is_supplied_model self.
Proof.
  eexists _, _. split; [vm_compute; reflexivity|].
  split; [reflexivity|]. unfold base_is_supplied_model. simpl. discriminate.
Qed.

(** C4 at the toy network. *)
Lemma C4_witness :
  well_typed (heap toy_world) toy_GEM [[R1]] = true ∧
  growth_admissible (heap toy_world) toy_GEM ["B1"] toy_growth = true ∧
  import_matlab_model ".." = inr {| reactions := [] |} ∧
  load_thermoDB toy_path = inr toy_path ∧
  ∃ self w',
    __init__ toy_GEM ["B1"] [[R1]] toy_uptake toy_growth toy_path toy_world
      = (inr self, w') ∧
    _GEM self = toy_GEM ∧
    _cobra_model self = {| reactions := [] |} ∧
    base_model (_tfa_model self) = {| reactions := [] |} ∧
    thermo_data (_tfa_model self) = toy_path ∧
    model_name (_tfa_model self) = "Lumped Model" ∧
    (base_is_supplied_model self ↔ {| reactions := [] |} = toy_GEM).
Proof.
  split_and!; [reflexivity..|].
  exact (C4_engine_receives_imported_model toy_GEM ["B1"] [[R1]] toy_uptake
           toy_growth toy_path toy_world _ _ eq_refl eq_refl eq_refl eq_refl).
Defined.

(** On a freshly built instance, with nothing converted yet, Solve returns
    a solution: out-of-order steps do not fail by themselves. *)
Lemma C5_counterexample :
  (∃ self w,
     __init__ toy_GEM ["B1"] [[R1]] toy_uptake toy_growth toy_path toy_world
       = (inr self, w) ∧
     (EvConvert ∉ trace w) ∧
     ∃ out w', step_solve self w = (inr out, w')) ∧
  ¬ out_of_order_fails_fast (Eng := StandIn.engine).
Proof.
  split.
  - eexists _, _. split; [vm_compute; reflexivity|]. split.
    + simpl. apply not_elem_of_nil.
    + eexists _, _. vm_compute. reflexivity.
  - intros Hg. destruct (Hg toy_instance toy_world) as [Hsolve _].
    destruct Hsolve as (e & w' & Hrun); [apply not_elem_of_nil|].
    vm_compute in Hrun. discriminate Hrun.
Qed.

(** C5 at the toy instance: the run returns, so the four steps returned
    in turn and the trace is the four transitions. *)
Lemma C5_witness :
  ∃ out w',
    run_optimisation toy_instance toy_world = (inr out, w') ∧
    completes toy_instance toy_world out w' ∧
    trace w' = trace toy_world ++ transitions.
Proof.
  assert (∃ out w', run_optimisation toy_instance toy_world = (inr out, w'))
    as (out & w' & Hrun) by (eexists _, _; vm_compute; reflexivity).
  exists out, w'. split; [exact Hrun|].
  destruct (C5_transitions_in_order toy_instance toy_world) as (Hret & Htr & _).
  split; [by apply Hret|by eapply Htr].
Defined.

(** With the core reaction [R1] holding the annotation dictionary of the
    non-core reaction [R2], gating returns and clears the flag of [R1],
    which is not in the non-core set. *)
Lemma C6_counterexample :
  ∃ self w0 w',
    __init__ toy_GEM ["B1"] [[R1]] toy_uptake toy_growth toy_path shared_world
      = (inr self, w0) ∧
    step_thermo_gate self w0 = (inr tt, w') ∧
    R1 ∈ _rcore self ∧ (R1 ∉ _rncore self) ∧
    computed_flag (heap w0) R1 = Some (PyBool true) ∧
    computed_flag (heap w') R1 = Some (PyBool false) ∧
    ¬ gate_frame (_rncore self) (heap w0) (heap w').
Proof.
  eexists _, _, _. split; [vm_compute; reflexivity|].
  split; [vm_compute; reflexivity|].
  assert (R1 ∉ ({[R2]} : gset loc)) as Hout.
  { intros H%elem_of_singleton. discriminate H. }
  split_and!.
  - vm_compute. reflexivity.
  - exact Hout.
  - vm_compute. reflexivity.
  - vm_compute. reflexivity.
  - intros [_ Hsame]. specialize (Hsame R1 Hout).
    vm_compute in Hsame. discriminate Hsame.
Qed.

(** C6 at the toy instance in the world where [R1] holds the annotation
    dictionary of [R2]. *)
Lemma C6_witness :
  forallb (annotated (heap shared_world)) (elements (_rncore toy_instance)) = true ∧
  ∃ w', step_thermo_gate toy_instance shared_world = (inr tt, w') ∧
    (∀ l, l ∈ _rncore toy_instance →
          computed_flag (heap w') l = Some (PyBool false)) ∧
    (∀ l, l ∉ _rncore toy_instance →
          reaction_of (heap w') l = reaction_of (heap shared_world) l ∧
          (¬ shares_annotation (heap shared_world) (_rncore toy_instance) l →
           computed_flag (heap w') l = computed_flag (heap shared_world) l) ∧
          (shares_annotation (heap shared_world) (_rncore toy_instance) l →
           computed_flag (heap w') l = Some (PyBool false))) ∧
    (gate_frame (_rncore toy_instance) (heap shared_world) (heap w') ↔
     ∀ l, l ∉ _rncore toy_instance →
          shares_annotation (heap shared_world) (_rncore toy_instance) l →
          computed_flag (heap shared_world) l = Some (PyBool false)).
Proof.
  split; [reflexivity|].
  exact (C6_thermo_gate_frame toy_instance shared_world eq_refl).
Defined.

(** C7 at the toy network, whose forward and reverse variables are
    distinct objects. *)
Lemma C7_witness :
  well_typed (heap toy_world) toy_GEM [[R1]] = true ∧
  growth_admissible (heap toy_world) toy_GEM ["B1"] toy_growth = true ∧
  import_matlab_model ".." = inr {| reactions := [] |} ∧
  load_thermoDB toy_path = inr toy_path ∧
  flux_apart (heap toy_world) toy_GEM = true ∧
  ∃ self w',
    __init__ toy_GEM ["B1"] [[R1]] toy_uptake toy_growth toy_path toy_world
      = (inr self, w') ∧
    (∀ l, l ∈ _rBBB self ↔
          l ∈ reactions toy_GEM ∧ designated_biomass (heap toy_world) ["B1"] l) ∧
    (∀ l, l ∈ _rBBB self →
       ∃ r', reaction_of (heap w') l = Some r' ∧
             lower_bound r' = toy_growth ∧ (toy_growth <= upper_bound r')%Q) ∧
    (∀ l r', l ∈ _rBBB self → reaction_of (heap w') l = Some r' →
       ∃ vf vb,
         variable_of (heap w') (forward_variable r') = Some vf ∧
         var_lb vf = Some (forward_floor toy_growth) ∧
         variable_of (heap w') (reverse_variable r') = Some vb ∧
         var_ub vb = Some (reverse_ceiling toy_growth) ∧
         ∀ ρ : loc → Q,
           within (heap w') ρ (forward_variable r') →
           within (heap w') ρ (reverse_variable r') →
           (toy_growth <= ρ (forward_variable r') - ρ (reverse_variable r'))%Q).
Proof.
  split_and!; [reflexivity..|].
  destruct (C7_growth_rate_lower_bound (Eng := StandIn.engine)
              toy_GEM ["B1"] [[R1]] toy_uptake toy_growth
              toy_path toy_world {| reactions := [] |} toy_path
              eq_refl eq_refl eq_refl eq_refl)
    as (self & w' & Hrun & Hbio & Hbound & Hflux).
  exists self, w'. split_and!; [exact Hrun|exact Hbio|exact Hbound|].
  exact (Hflux eq_refl).
Defined.

(** C8 at the toy network without core grouping: [R1] and [R2] are both
    non-core, and each has its own indicator. *)
Lemma C8_witness :
  well_typed (heap toy_world) toy_GEM [] = true ∧
  growth_admissible (heap toy_world) toy_GEM ["B1"] toy_growth = true ∧
  import_matlab_model ".." = inr {| reactions := [] |} ∧
  load_thermoDB toy_path = inr toy_path ∧
  (0 < toy_uptake)%Q ∧
  ∃ self w',
    __init__ toy_GEM ["B1"] [] toy_uptake toy_growth toy_path toy_world
      = (inr self, w') ∧
    (∀ l, l ∈ dom (_bin_vars self) ↔
          l ∈ reactions toy_GEM ∧ (l ∉ grouped []) ∧
          ¬ designated_biomass (heap toy_world) ["B1"] l) ∧
    dom (_bin_vars self) = _rncore self ∧
    (∀ l y, _bin_vars self !! l = Some y →
       heap toy_world !! y = None ∧
       ∃ v, heap w' !! y = Some (OVariable v) ∧ var_type v = "binary" ∧
            var_lb v = Some 0%Q ∧ var_ub v = Some 1%Q ∧
            id_of (heap toy_world) l = Some (var_name v)) ∧
    (∀ l1 l2 y, _bin_vars self !! l1 = Some y →
                _bin_vars self !! l2 = Some y → l1 = l2) ∧
    (∀ l y, _bin_vars self !! l = Some y →
       ∃ c, uptake_constraint_of (heap w') (_bin_vars self) toy_uptake l c ∧
            filter (λ c', y ∈ expr_vars (expression c'))
                   (added_cons_vars (_tfa_model self)) = [c]).
Proof.
  split_and!; [reflexivity..|].
  exact (C8_one_indicator_per_reaction toy_GEM ["B1"] [] toy_uptake
           toy_growth toy_path toy_world _ _ eq_refl eq_refl eq_refl eq_refl
           eq_refl).
Defined.

(** The two non-core reactions of that construction, [R1] and [R2], have
    the indicators 35 and 34. *)
Example two_indicators :
  ∃ self w',
    __init__ toy_GEM ["B1"] [] toy_uptake toy_growth toy_path toy_world
      = (inr self, w') ∧
    _bin_vars self = {[R1 := 35%positive; R2 := 34%positive]}.
Proof. eexists _, _. split; vm_compute; reflexivity. Qed.

(** An identifier that names no reaction and an empty list of groupings
    are accepted: the constructor returns an instance with empty biomass
    and core sets. *)
Lemma C9_counterexample :
  malformed (heap toy_world) toy_GEM ["ghost"] [] ∧
  ∃ self w',
    __init__ toy_GEM ["ghost"] [] toy_uptake toy_growth toy_path toy_world
      = (inr self, w') ∧
    _rBBB self = ∅ ∧ _rcore self = ∅.
Proof.
  split; [right; by left|].
  eexists _, _. split_and!; vm_compute; reflexivity.
Qed.

(** C9 at the toy network with an unknown identifier and no grouping. *)
Lemma C9_witness :
  well_typed (heap toy_world) toy_GEM [] = true ∧
  growth_admissible (heap toy_world) toy_GEM ["ghost"] toy_growth = true ∧
  import_matlab_model ".." = inr {| reactions := [] |} ∧
  load_thermoDB toy_path = inr toy_path ∧
  ∃ self w',
    __init__ toy_GEM ["ghost"] [] toy_uptake toy_growth toy_path toy_world
      = (inr self, w') ∧
    (∀ l, l ∈ _rBBB self ↔
          l ∈ reactions toy_GEM ∧ designated_biomass (heap toy_world) ["ghost"] l) ∧
    (["ghost"] = [] → _rBBB self = ∅) ∧
    (([] : list (list loc)) = [] → _rcore self = ∅ ∧ _mcore self = ∅) ∧
    (_rBBB self = ∅ → _rcore self = ∅ →
     _rncore self = list_to_set (reactions toy_GEM)).
Proof.
  split_and!; [reflexivity..|].
  exact (C9_no_input_validation toy_GEM ["ghost"] [] toy_uptake toy_growth
           toy_path toy_world _ _ eq_refl eq_refl eq_refl eq_refl).
Defined.

(** C10 at the toy network with [R9], a reaction outside the model, in
    the core grouping. *)
Lemma C10_witness :
  well_typed (heap toy_world) toy_GEM [[R1; R9]] = true ∧
  growth_admissible (heap toy_world) toy_GEM ["B1"] toy_growth = true ∧
  import_matlab_model ".." = inr {| reactions := [] |} ∧
  load_thermoDB toy_path = inr toy_path ∧
  ∃ self w',
    __init__ toy_GEM ["B1"] [[R1; R9]] toy_uptake toy_growth toy_path toy_world
      = (inr self, w') ∧
    _rcore self = grouped [[R1; R9]] ∧
    (∀ m, m ∈ _mcore self ↔
          ∃ l, l ∈ _rcore self ∧ m ∈ metabolites_of (heap toy_world) l) ∧
    (∀ sub l, sub ∈ [[R1; R9]] → l ∈ sub → l ∈ _rcore self) ∧
    _rncore self ⊆ list_to_set (reactions toy_GEM) ∧
    _rncore self ## _rcore self ∧
    _rncore self ## _rBBB self.
Proof.
  split_and!; [reflexivity..|].
  exact (C10_core_sets_unchecked toy_GEM ["B1"] [[R1; R9]] toy_uptake toy_growth
           toy_path toy_world _ _ eq_refl eq_refl eq_refl eq_refl).
Defined.

(** ** The further properties at the toy network *)

Example bare_construction :
  (__init__ bare_GEM [] [] toy_uptake toy_growth toy_path toy_world).1
  = inr bare_instance.
Proof. vm_compute. reflexivity. Qed.

(** X3 at the toy network with a growth rate of 2000, above the upper
    bound 1000 of [B1]. *)
Lemma X3_witness :
  well_typed (heap toy_world) toy_GEM [[R1]] = true ∧
  import_matlab_model ".." = inr {| reactions := [] |} ∧
  load_thermoDB toy_path = inr toy_path ∧
  growth_admissible (heap toy_world) toy_GEM ["B1"] 2000%Q = false ∧
  ((∃ self w', __init__ toy_GEM ["B1"] [[R1]] toy_uptake 2000%Q toy_path toy_world
               = (inr self, w')) ↔
   growth_admissible (heap toy_world) toy_GEM ["B1"] 2000%Q = true) ∧
  ∃ w', __init__ toy_GEM ["B1"] [[R1]] toy_uptake 2000%Q toy_path toy_world
        = (inl ValueError, w') ∧
        trace w' = trace toy_world.
Proof.
  split_and!; [reflexivity..| |].
  - exact (proj1 (X3_growth_rate_above_upper_bound toy_GEM ["B1"] [[R1]]
                    toy_uptake 2000%Q toy_path toy_world _ _
                    eq_refl eq_refl eq_refl)).
  - exact (proj2 (X3_growth_rate_above_upper_bound toy_GEM ["B1"] [[R1]]
                    toy_uptake 2000%Q toy_path toy_world _ _
                    eq_refl eq_refl eq_refl) eq_refl).
Defined.

(** X4 with the importer that finds no model. *)
Lemma X4_witness :
  forallb (is_reaction (heap toy_world)) (reactions toy_GEM) = true ∧
  forallb (forallb (is_reaction (heap toy_world))) [[R1]] = true ∧
  (import_matlab_model (ThermoEngine := engine_without_model) ".."
     = inl (ExternalError "no model file") →
   __init__ (Eng := engine_without_model) toy_GEM ["B1"] [[R1]] toy_uptake
     toy_growth toy_path toy_world
   = (inl (ExternalError "no model file"), toy_world)) ∧
  (∀ cm, import_matlab_model (ThermoEngine := engine_without_model) ".." = inr cm →
         load_thermoDB (ThermoEngine := engine_without_model) toy_path
           = inl (ExternalError "no model file") →
   __init__ (Eng := engine_without_model) toy_GEM ["B1"] [[R1]] toy_uptake
     toy_growth toy_path toy_world
   = (inl (ExternalError "no model file"), toy_world)).
Proof.
  split; [reflexivity|]. split; [reflexivity|].
  exact (X4_loader_error_propagates (Eng := engine_without_model) toy_GEM ["B1"]
           [[R1]] toy_uptake toy_growth toy_path toy_world
           (ExternalError "no model file") eq_refl eq_refl).
Defined.


(** The exception of that construction is [TypeError]; with a metabolite
    in place of the dictionary it is [AttributeError]. *)
Example grouping_of_non_reactions :
  __init__ (ThermoDB := string) toy_GEM ["B1"] [[R1; 31%positive]] toy_uptake
    toy_growth toy_path toy_world = (inl TypeError, toy_world) ∧
  __init__ (ThermoDB := string) toy_GEM ["B1"] [[R1; 21%positive]] toy_uptake
    toy_growth toy_path toy_world = (inl AttributeError, toy_world).
Proof. split; reflexivity. Qed.

(** X6 at the toy instance. *)
Lemma X6_witness :
  ∃ w',
    step_thermo_gate toy_instance toy_world = (inr tt, w') ∧
    (∀ l, reaction_of (heap w') l = reaction_of (heap toy_world) l) ∧
    (∀ l o, heap toy_world !! l = Some o → (∀ m, o ≠ ODict m) →
            heap w' !! l = Some o) ∧
    (∀ d m, heap toy_world !! d = Some (ODict m) →
       ∃ m', heap w' !! d = Some (ODict m') ∧
             ∀ k, k ≠ "computed" → m' !! k = m !! k) ∧
    (∀ l, heap toy_world !! l = None → heap w' !! l = None).
Proof.
  eexists. split; [vm_compute; reflexivity|].
  refine (X6_gating_writes_computed_only toy_instance toy_world _ _).
  vm_compute. reflexivity.
Defined.

(** X7 at the toy instance. *)
Lemma X7_witness :
  ∃ w1,
    step_thermo_gate toy_instance toy_world = (inr tt, w1) ∧
    step_thermo_gate toy_instance w1 =
    (inr tt, {| heap := heap w1; trace := trace w1 ++ [EvThermoGate] |}).
Proof.
  eexists. split; [vm_compute; reflexivity|].
  refine (X7_gating_idempotent toy_instance toy_world _ _).
  vm_compute. reflexivity.
Defined.

(** X8 at the toy instance. *)
Lemma X8_witness :
  prepare (_tfa_model toy_instance) (heap toy_world)
    = (inr (_tfa_model toy_instance), heap toy_world) ∧
  forallb (annotated (heap toy_world)) (elements (_rncore toy_instance)) = true ∧
  ∃ h2,
    (∀ l, l ∈ _rncore toy_instance → computed_flag h2 l = Some (PyBool false)) ∧
    (∀ l, reaction_of h2 l = reaction_of (heap toy_world) l) ∧
    (∀ m2 h3 m3 sol h4,
       convert (_tfa_model toy_instance) h2 = (inr m2, h3) →
       optimize m2 h3 = (inr (m3, sol), h4) →
       run_optimisation toy_instance toy_world =
       (inr (with_tfa_model m3 toy_instance, sol),
        {| heap := h4; trace := trace toy_world ++ transitions |})) ∧
    (∀ e h3,
       convert (_tfa_model toy_instance) h2 = (inl e, h3) →
       run_optimisation toy_instance toy_world =
       (inl e, {| heap := h3;
                  trace := trace toy_world
                           ++ [EvPrepare; EvThermoGate; EvConvert] |})) ∧
    (∀ m2 h3 e h4,
       convert (_tfa_model toy_instance) h2 = (inr m2, h3) →
       optimize m2 h3 = (inl e, h4) →
       run_optimisation toy_instance toy_world =
       (inl e, {| heap := h4; trace := trace toy_world ++ transitions |})).
Proof.
  split; [reflexivity|]. split; [reflexivity|].
  exact (X8_run_passes_engine_results toy_instance toy_world
           (_tfa_model toy_instance) (heap toy_world) eq_refl eq_refl).
Defined.

(** X9 at the instance whose one non-core reaction, [R9], has no
    annotation. *)
Lemma X9_witness :
  prepare (_tfa_model bare_instance) (heap toy_world)
    = (inr (_tfa_model bare_instance), heap toy_world) ∧
  _rncore bare_instance ≠ ∅ ∧
  forallb (unannotated (heap toy_world)) (elements (_rncore bare_instance)) = true ∧
  run_optimisation bare_instance toy_world =
  (inl AttributeError,
   {| heap := heap toy_world;
      trace := trace toy_world ++ [EvPrepare; EvThermoGate] |}).
Proof.
  assert (_rncore bare_instance ≠ ∅) as Hne.
  { intros Hempty.
    apply (f_equal (λ s : gset loc, bool_decide (R9 ∈ s))) in Hempty.
    vm_compute in Hempty. discriminate Hempty. }
  split; [reflexivity|]. split; [exact Hne|]. split; [reflexivity|].
  exact (X9_unannotated_stops_run bare_instance toy_world
           (_tfa_model bare_instance) (heap toy_world) eq_refl Hne eq_refl).
Defined.

(** X10 at the toy network. *)
Lemma X10_witness :
  well_typed (heap toy_world) toy_GEM [[R1]] = true ∧
  growth_admissible (heap toy_world) toy_GEM ["B1"] toy_growth = true ∧
  import_matlab_model ".." = inr {| reactions := [] |} ∧
  load_thermoDB toy_path = inr toy_path ∧
  ∃ (self : LumpGEM string) w' self2 w'',
    __init__ toy_GEM ["B1"] [[R1]] toy_uptake toy_growth toy_path toy_world
      = (inr self, w') ∧
    __init__ toy_GEM ["B1"] [[R1]] toy_uptake toy_growth toy_path w'
      = (inr self2, w'') ∧
    _rBBB self2 = _rBBB self ∧
    _rcore self2 = _rcore self ∧
    _mcore self2 = _mcore self ∧
    _rncore self2 = _rncore self.
Proof.
  split_and!; [reflexivity..|].
  exact (X10_partition_idempotent toy_GEM ["B1"] [[R1]] toy_uptake toy_growth
           toy_path toy_world _ _ eq_refl eq_refl eq_refl eq_refl).
Defined.

(** X11 at the toy network. *)
Lemma X11_witness :
  well_typed (heap toy_world) toy_GEM [[R1]] = true ∧
  growth_admissible (heap toy_world) toy_GEM ["B1"] toy_growth = true ∧
  import_matlab_model ".." = inr {| reactions := [] |} ∧
  load_thermoDB toy_path = inr toy_path ∧
  ∃ (self : LumpGEM string) w',
    __init__ toy_GEM ["B1"] [[R1]] toy_uptake toy_growth toy_path toy_world
      = (inr self, w') ∧
    (∀ l, l ∈ _rncore self ↔
          l ∈ reactions toy_GEM ∧ (l ∉ grouped [[R1]]) ∧
          ¬ designated_biomass (heap toy_world) ["B1"] l) ∧
    size (_bin_vars self) = size (_rncore self) ∧
    length (added_cons_vars (_tfa_model self)) = size (_rncore self) ∧
    (size (_rncore self) ≤ length (reactions toy_GEM))%nat.
Proof.
  split_and!; [reflexivity..|].
  exact (X11_problem_size toy_GEM ["B1"] [[R1]] toy_uptake toy_growth
           toy_path toy_world _ _ eq_refl eq_refl eq_refl eq_refl).
Defined.
